(** * Legal case analyzer: [scripts/analyze_case.py]

    A shallow embedding of the inference pipeline of the analyzer
    (text normalisation, participant extraction, explanation and
    recommendation tables, orchestration with error containment) and
    the properties its specification states about it.

    Conventions.
    - A Python [str] is a [string]; each [ascii] stands for the code
      point of that value, so the texts covered are those whose code
      points are below 256.  [str.lower], [str.isspace] and the [re]
      character classes are written out for that range.  Above it
      [str.lower] can give an ASCII letter for a character that is
      not one (U+212A gives k) or two code points for one (U+0130),
      and [re.IGNORECASE] lets [[A-Za-z]] match U+017F, U+212A,
      U+0130 and U+0131; so statements are made in terms of the
      lowercase form [Str.lower s] of a text, not of the text.
    - A Python [float] is a binary64 float, the primitive [float] of
      Rocq, with the multiplication and the comparisons of IEEE 754.
      Where a statement is about the finite floats only, they are
      taken by their exact value, a rational [Q]; the comparisons of
      the source against the integers 80 and 60 are exact on them.
    - A [dict] is an association list in insertion order.
    - Code that can raise runs in the [result] monad; the description
      carried by [Err] is what [str(e)] gives. *)

From Stdlib Require Import Bool Arith Lia List NArith ZArith Ascii String.
From Stdlib Require Import QArith Lqa Floats.
Import ListNotations.

Set Implicit Arguments.
Set Warnings "-inexact-float".

Local Close Scope Q_scope.
Local Open Scope bool_scope.
Local Open Scope list_scope.
Local Open Scope string_scope.

(* ================================================================= *)
(** ** Characters *)

Module Char.

Definition code (c : ascii) : N := N_of_ascii c.

Definition between (lo hi : N) (c : ascii) : bool :=
  ((lo <=? code c) && (code c <=? hi))%N.

(** [[A-Z]] and [[a-z]]. *)
Definition is_upper (c : ascii) : bool := between 65 90 c.
Definition is_lower (c : ascii) : bool := between 97 122 c.

(** The class [[a-zA-Z]]. *)
Definition is_letter (c : ascii) : bool := is_lower c || is_upper c.

(** [str.isspace] and the class [\s] of [re] on a [str] pattern:
    tab to carriage return, the four separators 0x1c-0x1f, space,
    NEL (0x85) and the no-break space (0xa0). *)
Definition isspace (c : ascii) : bool :=
  between 9 13 c || between 28 31 c
  || (code c =? 32)%N || (code c =? 133)%N || (code c =? 160)%N.

(** [str.lower] on one code point below 256: [A-Z] and the capital
    letters of 0xc0-0xde (0xd7, the multiplication sign, is not a
    letter) move up by 32; everything else is left alone.  (Above
    255, which [ascii] does not hold, [str.lower] also gives k for
    U+212A and two code points for U+0130.) *)
Definition lower (c : ascii) : ascii :=
  if is_upper c || (between 192 222 c && negb (code c =? 215)%N)
  then ascii_of_N (code c + 32)
  else c.

(** A literal of a pattern compiled with [re.IGNORECASE]. *)
Definition lit_ignorecase (p : ascii) (c : ascii) : bool :=
  (lower c =? lower p)%char.

End Char.

(* ================================================================= *)
(** ** Strings *)

Module Str.

Fixpoint map (f : ascii -> ascii) (s : string) : string :=
  match s with
  | EmptyString => EmptyString
  | String c s' => String (f c) (map f s')
  end.

Fixpoint forallb (p : ascii -> bool) (s : string) : bool :=
  match s with
  | EmptyString => true
  | String c s' => p c && forallb p s'
  end.

(** [s.lower()] *)
Definition lower (s : string) : string := map Char.lower s.

(** [needle in hay] *)
Fixpoint contains (needle hay : string) : bool :=
  prefix needle hay
  || match hay with
     | EmptyString => false
     | String _ hay' => contains needle hay'
     end.

(** [s.split()]: the maximal runs of non-whitespace characters of
    [s], in order.  A character that is not whitespace either closes
    a word (end of the text or whitespace next) or is put in front of
    the word that starts right after it. *)
Fixpoint split (s : string) : list string :=
  match s with
  | EmptyString => []
  | String c s' =>
      if Char.isspace c then split s'
      else match s' with
           | EmptyString => [String c EmptyString]
           | String d _ =>
               if Char.isspace d then String c EmptyString :: split s'
               else match split s' with
                    | w :: ws => String c w :: ws
                    | [] => [String c EmptyString]
                    end
           end
  end.

(** [sep.join(ws)] *)
Definition join (sep : string) (ws : list string) : string :=
  String.concat sep ws.

(** [x in xs] for a list of strings *)
Definition mem (x : string) (xs : list string) : bool :=
  existsb (String.eqb x) xs.

Definition first (s : string) : option ascii :=
  match s with
  | EmptyString => None
  | String c _ => Some c
  end.

Fixpoint last (s : string) : option ascii :=
  match s with
  | EmptyString => None
  | String c EmptyString => Some c
  | String _ s' => last s'
  end.

(** No two neighbouring characters both satisfy [p]. *)
Fixpoint no_two_adjacent (p : ascii -> bool) (s : string) : bool :=
  match s with
  | EmptyString => true
  | String c s' =>
      negb (p c && match s' with
                   | EmptyString => false
                   | String d _ => p d
                   end)
      && no_two_adjacent p s'
  end.

End Str.

(* ================================================================= *)
(** ** Text normaliser *)

(** [re.sub(r'[^a-zA-Z\s]', ' ', text)]: the pattern matches one
    character at a time, so the substitution is a map. *)
Definition sub_non_letters (text : string) : string :=
  Str.map (fun c => if Char.is_letter c || Char.isspace c then c else " "%char)
          text.

Definition preprocess_text (text : string) : string :=
  let text := Str.lower text in
  let text := sub_non_letters text in
  let text := Str.join " " (Str.split text) in
  text.

(* ================================================================= *)
(** ** Regular expressions

    The fragment of [re] the analyzer uses: single characters (a
    literal or a class), sequence, alternation, and a greedy [+] on a
    class.  The matcher is a backtracking one, in the order of [re]:
    the left branch of an alternation first, the longest repetition
    first.  It works on the text that is left and hands what remains
    after the match to its continuation. *)

Module Re.

Inductive regex : Type :=
| Cls (p : ascii -> bool)
| Seq (r1 r2 : regex)
| Alt (r1 r2 : regex)
| Plus (p : ascii -> bool).

Definition or_else {A} (x y : option A) : option A :=
  match x with
  | Some _ => x
  | None => y
  end.

Fixpoint plus (p : ascii -> bool) (s : string)
         (k : string -> option string) : option string :=
  match s with
  | EmptyString => None
  | String c s' => if p c then or_else (plus p s' k) (k s') else None
  end.

Fixpoint run (r : regex) (s : string)
         (k : string -> option string) : option string :=
  match r with
  | Cls p =>
      match s with
      | EmptyString => None
      | String c s' => if p c then k s' else None
      end
  | Seq r1 r2 => run r1 s (fun s1 => run r2 s1 k)
  | Alt r1 r2 => or_else (run r1 s k) (run r2 s k)
  | Plus p => plus p s k
  end.

(** A match that starts at the first character of [s]; the result
    is the text after the match. *)
Definition match_at (r : regex) (s : string) : option string :=
  run r s Some.

(** The matched text, given what is left after it. *)
Definition matched (s rest : string) : string :=
  substring 0 (String.length s - String.length rest) s.

(** [re.search(r, s)], as a truth value. *)
Fixpoint search (r : regex) (s : string) : bool :=
  match match_at r s with
  | Some _ => true
  | None =>
      match s with
      | EmptyString => false
      | String _ s' => search r s'
      end
  end.

(** [re.findall(r, s)] for a pattern whose only group is the whole
    pattern: the matches from left to right, each search resuming
    where the previous match ended.  [skip] counts the characters of
    the last match still to be passed.  (No pattern of [regex]
    matches the empty text, so the end of the text yields nothing.) *)
Fixpoint findall_from (r : regex) (skip : nat) (s : string) : list string :=
  match s with
  | EmptyString => []
  | String _ s' =>
      match skip with
      | S n => findall_from r n s'
      | O =>
          match match_at r s with
          | Some rest =>
              matched s rest
              :: findall_from r (pred (String.length s - String.length rest)) s'
          | None => findall_from r 0 s'
          end
      end
  end.

Definition findall (r : regex) (s : string) : list string :=
  findall_from r 0 s.

(** The literals of [w], one after the other, then [r]. *)
Fixpoint word (lit : ascii -> ascii -> bool) (w : string) (r : regex) : regex :=
  match w with
  | EmptyString => r
  | String c w' => Seq (Cls (lit c)) (word lit w' r)
  end.

(** What a pattern denotes: the texts it matches as a whole. *)
Inductive matches : regex -> string -> Prop :=
| m_cls p c : p c = true -> matches (Cls p) (String c EmptyString)
| m_seq r1 r2 u v : matches r1 u -> matches r2 v -> matches (Seq r1 r2) (u ++ v)
| m_alt_l r1 r2 u : matches r1 u -> matches (Alt r1 r2) u
| m_alt_r r1 r2 u : matches r2 u -> matches (Alt r1 r2) u
| m_plus_one p c : p c = true -> matches (Plus p) (String c EmptyString)
| m_plus_more p c u :
    p c = true -> matches (Plus p) u -> matches (Plus p) (String c u).

End Re.

(* ================================================================= *)
(** ** Participant extractor *)

(** [r'(person\s+[A-Za-z]|[A-Za-z]+\s+[A-Za-z]+)'] with
    [re.IGNORECASE].  On code points below 256 the class [[A-Za-z]]
    has the same members with and without the flag.  (Above 255,
    which [ascii] does not hold, the flag adds U+017F, U+212A, U+0130
    and U+0131 to the class and to the literals s, k and i.) *)
Definition person_pattern : Re.regex :=
  Re.Alt
    (Re.word Char.lit_ignorecase "person"
       (Re.Seq (Re.Plus Char.isspace) (Re.Cls Char.is_letter)))
    (Re.Seq (Re.Plus Char.is_letter)
       (Re.Seq (Re.Plus Char.isspace) (Re.Plus Char.is_letter))).

(** [r'person\s+a'], [r'person\s+b'], [r'person\s+c'] with
    [re.IGNORECASE]. *)
Definition person_letter (x : ascii) : Re.regex :=
  Re.word Char.lit_ignorecase "person"
    (Re.Seq (Re.Plus Char.isspace) (Re.Cls (Char.lit_ignorecase x))).

Definition standard_keys : list string := ["person a"; "person b"; "person c"].

(** The [for match in matches] loop, threading [parties]. *)
Fixpoint generic_pass (matches parties : list string) : list string :=
  match matches with
  | [] => parties
  | m :: matches' =>
      if negb (Str.mem (Str.lower m) standard_keys) then
        if negb (Str.mem (Str.lower m) (List.map Str.lower parties)) then
          generic_pass matches' (parties ++ [m])
        else generic_pass matches' parties
      else generic_pass matches' parties
  end.

(** One [if re.search(...): parties.append(...)]. *)
Definition append_if_found (x : ascii) (canonical text : string)
           (parties : list string) : list string :=
  if Re.search (person_letter x) text then parties ++ [canonical] else parties.

Definition extract_parties (text : string) : list string :=
  let parties := [] in
  let matches := Re.findall person_pattern text in
  let parties := generic_pass matches parties in
  let parties := append_if_found "a" "Person A" text parties in
  let parties := append_if_found "b" "Person B" text parties in
  let parties := append_if_found "c" "Person C" text parties in
  parties.

(* ================================================================= *)
(** ** Explanation engine *)

Definition get_self_defense_explanation (case_text : string) : string :=
  "It depends on the circumstances. If Person B kills Person A in self-defense to protect himself, then Person B would NOT be considered guilty of murder or culpable homicide.

This scenario is covered under Section 100 of IPC (Right of Private Defence of the Body Extending to Causing Death):
- This allows a person to cause death in self-defense when there is reasonable apprehension of death or grievous hurt
- For self-defense to be valid, the threat must be immediate and not avoidable by other means
- The force used must be proportionate to the threat

If the case involves excessive force beyond what was necessary for self-defense, Person B may be guilty of culpable homicide not amounting to murder under Section 304.

If death occurred due to actions taken as part of legitimate self-defense, Person B would not be considered guilty at all.".

Definition get_labor_law_explanation (case_text : string) : string :=
  "Failure to pay minimum wage is primarily a violation under labor laws, specifically:

1. The Minimum Wages Act, 1948:
   - Section 22: Imprisonment up to 6 months or fine up to 500 rupees, or both
   - Employers are legally obligated to pay at least the minimum wage as notified

2. Under the Indian Penal Code, it may be considered:
   - Section 420 (Cheating): If the employer induced work with no intention to pay
   - May also be considered as criminal breach of trust in certain circumstances

The employee can:
1. File a complaint with the Labor Commissioner
2. File a civil suit for recovery of wages
3. In egregious cases, file a criminal complaint for cheating

The exact penalty depends on:
- Whether this was a systematic practice
- Number of employees affected
- Duration of non-payment
- Whether there was deceit involved".

Definition get_section_explanation (section case_text : string) : string :=
  if Str.contains "self-defense" (Str.lower case_text)
     || Str.contains "self defense" (Str.lower case_text)
  then get_self_defense_explanation case_text
  else if Str.contains "minimum wage" (Str.lower case_text)
          || Str.contains "labor" (Str.lower case_text)
          || Str.contains "employer" (Str.lower case_text)
  then get_labor_law_explanation case_text
  else
  if (section =? "302")%string then
    "Murder:
- Punishment: Death or imprisonment for life, and fine
- For proving murder, the prosecution must establish intention to cause death
- The case must show premeditation or intention to cause bodily injury sufficient to cause death"
  else if (section =? "304")%string then
    "Culpable Homicide Not Amounting to Murder:
- Punishment: Imprisonment for life, or up to 10 years, and fine
- Applies when death is caused without the intention to cause death
- May apply when the act is done with the knowledge that it is likely to cause death"
  else if (section =? "304A")%string then
    "Death by Negligence:
- Punishment: Imprisonment up to 2 years, or fine, or both
- Applies when death is caused by a rash or negligent act
- No intention to cause death or knowledge that the act would likely cause death"
  else if (section =? "308")%string then
    "Attempt to Commit Culpable Homicide:
- Punishment: Imprisonment up to 3 years, or fine, or both
- Applies when an act is done with the intention of causing culpable homicide
- The attempt does not result in death"
  else if (section =? "319")%string then
    "Hurt:
- Punishment: Imprisonment up to 1 year, or fine up to 1,000 rupees, or both
- Causing bodily pain, disease, or infirmity to any person
- Includes physical injury that causes pain"
  else if (section =? "320")%string then
    "Grievous Hurt:
- Punishment: Imprisonment up to 7 years, and fine
- Includes emasculation, permanent privation of sight or hearing, fracture or dislocation of bones, or any hurt which endangers life"
  else if (section =? "376")%string then
    "Rape:
- Punishment: Rigorous imprisonment for a term not less than 7 years, may extend to life, and fine
- Sexual intercourse without consent or with consent obtained under fear, threat, or false promises"
  else if (section =? "379")%string then
    "Theft:
- Punishment: Imprisonment up to 3 years, or fine, or both
- Involves dishonestly taking property without consent
- Must be done with the intention to permanently deprive the owner of the property"
  else if (section =? "392")%string then
    "Robbery:
- Punishment: Rigorous imprisonment up to 10 years, and fine
- Theft with the use of force or fear of force
- Includes attempt to cause death, hurt, or wrongful restraint to commit theft"
  else if (section =? "420")%string then
    "Cheating and Dishonestly Inducing Delivery of Property:
- Punishment: Imprisonment up to 7 years and fine
- Involves fraudulent or deceptive practices resulting in wrongful gain
- Must show intention to defraud from the beginning"
  else if (section =? "499")%string then
    "Defamation:
- Punishment: Simple imprisonment up to 2 years, or fine, or both
- Making or publishing imputations concerning any person with intent to harm their reputation
- Exceptions include truth for public good, fair comment on public conduct, etc."
  else if (section =? "300")%string then
    "Definition of Murder:
- When the act is done with the intention of causing death
- When the act is done with the intention of causing bodily injury likely to cause death
- When the act is done with the knowledge that it is likely to cause death"
  else if (section =? "100")%string then
    "Right of Private Defence of the Body Extending to Causing Death:
- No punishment as it is a defense, not an offense
- Applies when there is reasonable apprehension of death or grievous hurt
- The threat must be immediate and not avoidable by other means
- Force used must be proportionate to the threat"
  else if (section =? "76")%string then
    "Act Done by a Person Bound by Law:
- No offense if the act is done by a person who is bound by law to do it
- The person must believe in good faith that they are bound by law to do the act"
  else if (section =? "79")%string then
    "Act Done by a Person Justified by Law:
- No offense if the act is justified by law
- The person must believe in good faith that they are justified by law to do the act"
  else "Section " ++ section ++ " of the Indian Penal Code".

(* ================================================================= *)
(** ** Recommendation engine *)

(** [x > y] on finite floats. *)
Definition Qgtb (x y : Q) : bool :=
  match (x ?= y)%Q with
  | Gt => true
  | _ => false
  end.

Definition get_recommendations (confidence : Q) : string :=
  if Qgtb confidence 80 then
    "Recommendations:
- Strong confidence in legal analysis
- Recommended to proceed with legal proceedings under the identified section
- Document all evidence thoroughly"
  else if Qgtb confidence 60 then
    "Recommendations:
- Moderate confidence in legal analysis
- Further investigation and evidence gathering recommended
- Consider consulting a legal expert for case-specific advice"
  else
    "Recommendations:
- Low confidence in automated analysis
- Consult legal experts for detailed evaluation
- Consider gathering more case details and evidence
- Complex case may involve multiple legal provisions".

(** The function on the floats the program passes to it:
    [confidence > 80] is the comparison of binary64, false on NaN. *)
Definition get_recommendations_float (confidence : float) : string :=
  if (80 <? confidence)%float then
    "Recommendations:
- Strong confidence in legal analysis
- Recommended to proceed with legal proceedings under the identified section
- Document all evidence thoroughly"
  else if (60 <? confidence)%float then
    "Recommendations:
- Moderate confidence in legal analysis
- Further investigation and evidence gathering recommended
- Consider consulting a legal expert for case-specific advice"
  else
    "Recommendations:
- Low confidence in automated analysis
- Consult legal experts for detailed evaluation
- Consider gathering more case details and evidence
- Complex case may involve multiple legal provisions".

(* ================================================================= *)
(** ** Analysis orchestrator *)

(** The outcome of code that can raise. *)
Inductive result (A : Type) : Type :=
| Ok (a : A)
| Err (e : string).

Arguments Ok {A} a.
Arguments Err {A} e.

Definition bind {A B} (x : result A) (f : A -> result B) : result B :=
  match x with
  | Ok a => f a
  | Err e => Err e
  end.

Notation "x <- c1 ;; c2" := (bind c1 (fun x => c2))
  (at level 61, c1 at next level, right associativity).

(** [xs[0]] *)
Definition item0 {A} (xs : list A) : result A :=
  match xs with
  | x :: _ => Ok x
  | [] => Err "index 0 is out of bounds for axis 0 with size 0"
  end.

(** One step of the reduction behind [np.max]: the running maximum
    [m] stays when it is at least the next entry [y] or is NaN, and
    gives way to [y] otherwise, so that a NaN goes through.  Entries
    that compare equal are the same float, but for the two zeros; of
    these the first stays. *)
Definition larger (m y : float) : float :=
  if (y <=? m)%float || is_nan m then m else y.

(** [np.max(xs)] *)
Definition np_max (xs : list float) : result float :=
  match xs with
  | x :: xs' => Ok (fold_left larger xs' x)
  | [] => Err "zero-size array to reduction operation maximum which has no identity"
  end.

(** The values the result dictionary holds. *)
Inductive value : Type :=
| VStr (s : string)
| VFloat (x : float)
| VList (l : list string).

Definition dict : Type := list (string * value).

(** [d.get(key)] *)
Fixpoint lookup (key : string) (d : dict) : option value :=
  match d with
  | [] => None
  | (k, v) :: d' => if (k =? key)%string then Some v else lookup key d'
  end.

(** [key in d] *)
Definition has_key (key : string) (d : dict) : bool :=
  match lookup key d with
  | Some _ => true
  | None => false
  end.

Definition keys (d : dict) : list string := List.map fst d.

Section Orchestrator.

(** What the vectorizer produces and what the configuration document
    holds are opaque to the analyzer. *)
Variables FeatureVector Config : Type.

(** The interfaces of the unpickled artifacts.  A class label is the
    integer the label encoder assigned to it. *)
Record classifier : Type := {
  predict : FeatureVector -> result (list nat);
  predict_proba : FeatureVector -> result (list (list float))
}.

Record vectorizer : Type := {
  transform : list string -> result FeatureVector
}.

Record label_encoder : Type := {
  inverse_transform : list nat -> result (list string)
}.

(** What opening and loading each of the four files gives. *)
Record model_files : Type := {
  rf_classifier_pkl : result classifier;
  tfidf_vectorizer_pkl : result vectorizer;
  label_encoder_pkl : result label_encoder;
  model_config_json : result Config
}.

(** The body of the [try] block. *)
Definition analyze_try (files : model_files) (case_text : string) : result dict :=
  clf <- rf_classifier_pkl files ;;
  vectorizer <- tfidf_vectorizer_pkl files ;;
  label_encoder <- label_encoder_pkl files ;;
  config <- model_config_json files ;;
  let processed_text := preprocess_text case_text in
  text_vector <- transform vectorizer [processed_text] ;;
  predictions <- predict clf text_vector ;;
  prediction <- item0 predictions ;;
  all_probabilities <- predict_proba clf text_vector ;;
  probabilities <- item0 all_probabilities ;;
  sections <- inverse_transform label_encoder [prediction] ;;
  section <- item0 sections ;;
  peak <- np_max probabilities ;;
  let confidence := (peak * 100)%float in
  let parties := extract_parties case_text in
  Ok [ ("case_text", VStr case_text);
       ("predicted_section", VStr section);
       ("confidence", VFloat confidence);
       ("parties", VList parties);
       ("explanation", VStr (get_section_explanation section case_text));
       ("recommendations", VStr (get_recommendations_float confidence)) ].

Definition error_message : string :=
  "An error occurred during analysis. Please check if all model files are available.".

Definition analyze_case (files : model_files) (case_text : string) : dict :=
  match analyze_try files case_text with
  | Ok result => result
  | Err e =>
      [ ("case_text", VStr case_text);
        ("error", VStr e);
        ("message", VStr error_message) ]
  end.

End Orchestrator.

(* ================================================================= *)
(** ** Interactive driver

    [main] reads lines from standard input and prints to standard
    output.  The input is the list of the lines still to be read, as
    [input()] returns them; the output is the list of the texts
    written, one per call of [print], each with its end.  An exception
    that is not caught ends the run. *)

Definition newline : string := String "010"%char "".

Module Strip.

(** [s.lstrip()] *)
Fixpoint lstrip (s : string) : string :=
  match s with
  | EmptyString => EmptyString
  | String c s' => if Char.isspace c then lstrip s' else s
  end.

(** [s.rstrip()] *)
Fixpoint rstrip (s : string) : string :=
  match s with
  | EmptyString => EmptyString
  | String c s' =>
      match rstrip s' with
      | EmptyString => if Char.isspace c then EmptyString else String c EmptyString
      | r => String c r
      end
  end.

(** [s.strip()] *)
Definition strip (s : string) : string := rstrip (lstrip s).

End Strip.

Inductive exn : Type :=
| EOFError
| KeyError (key : string)
| TypeError
| ValueError.

(** Code that prints and can raise: what it wrote, and the exception
    or the value it ended with. *)
Definition io (A : Type) : Type := list string * (exn + A).

Definition ret {A} (a : A) : io A := ([], inr a).

Definition raise {A} (e : exn) : io A := ([], inl e).

Definition io_bind {A B} (m : io A) (f : A -> io B) : io B :=
  match m with
  | (out, inl e) => (out, inl e)
  | (out, inr a) => let '(out', r) := f a in ((out ++ out')%list, r)
  end.

Notation "x <-- c1 ;; c2" := (io_bind c1 (fun x => c2))
  (at level 61, c1 at next level, right associativity).

Notation "c1 ;;; c2" := (io_bind c1 (fun _ => c2))
  (at level 61, right associativity).

(** [print(s)] and [print(s, end="")] *)
Definition print (s : string) : io unit := ([s ++ newline], inr tt).

Definition print_no_end (s : string) : io unit := ([s], inr tt).

(** [for x in xs: body] *)
Fixpoint for_each {A} (xs : list A) (body : A -> io unit) : io unit :=
  match xs with
  | [] => ret tt
  | x :: xs' => body x ;;; for_each xs' body
  end.

(** [d[key]] *)
Definition getitem (d : dict) (key : string) : io value :=
  match lookup key d with
  | Some v => ret v
  | None => raise (KeyError key)
  end.

(** [d.get(key, default)] *)
Definition get (d : dict) (key : string) (default : value) : value :=
  match lookup key d with
  | Some v => v
  | None => default
  end.

(** The truth value of [d.get(key)]: a missing key gives [None]. *)
Definition get_truthy (d : dict) (key : string) : bool :=
  match lookup key d with
  | Some (VStr s) => negb (s =? "")%string
  | Some (VFloat x) => negb (x =? 0)%float
  | Some (VList l) => match l with [] => false | _ :: _ => true end
  | None => false
  end.

(** [s + v] for a string [s] *)
Definition concat_str (s : string) (v : value) : io string :=
  match v with
  | VStr t => ret (s ++ t)
  | VFloat _ | VList _ => raise TypeError
  end.

(** The items a [for] loop takes from a value. *)
Definition items (v : value) : io (list string) :=
  match v with
  | VList l => ret l
  | VStr s => ret (List.map (fun c => String c EmptyString) (list_ascii_of_string s))
  | VFloat _ => raise TypeError
  end.

Section Driver.

Variables FeatureVector Config : Type.

(** What Python's formatting of floats and lists gives is left to the
    language: [format(x, '.1f')] and [str(x)] of a float, [str(l)] of
    a list. *)
Variable format_1f : float -> string.
Variable str_float : float -> string.
Variable str_list : list string -> string.

Variable files : model_files FeatureVector Config.

(** [str(v)] *)
Definition py_str (v : value) : string :=
  match v with
  | VStr s => s
  | VFloat q => str_float q
  | VList l => str_list l
  end.

(** [f"{v:.1f}"] *)
Definition format_fixed1 (v : value) : io string :=
  match v with
  | VFloat q => ret (format_1f q)
  | VStr _ => raise ValueError
  | VList _ => raise TypeError
  end.

(** The part of the loop body that prints a result. *)
Definition report (result : dict) : io unit :=
  print (newline ++ "Legal Case Analysis") ;;;
  print "==================================================" ;;;
  print (newline ++ "Case Description:") ;;;
  print (py_str (get result "case_text" (VStr "N/A"))) ;;;
  if has_key "error" result then
    e <-- getitem result "error" ;;
    print (newline ++ "Error: " ++ py_str e) ;;;
    m <-- getitem result "message" ;;
    print ("Message: " ++ py_str m)
  else
    print (newline ++ "Legal Analysis:") ;;;
    print "--------------------------------------------------" ;;;
    (if get_truthy result "parties" then
       print (newline ++ "Parties Involved:") ;;;
       parties <-- getitem result "parties" ;;
       parties <-- items parties ;;
       for_each parties (fun party => print ("- " ++ party))
     else ret tt) ;;;
    section <-- getitem result "predicted_section" ;;
    confidence <-- getitem result "confidence" ;;
    confidence <-- format_fixed1 confidence ;;
    print (newline ++ "Applicable IPC Section: " ++ py_str section
           ++ " (Confidence: " ++ confidence ++ "%)") ;;;
    explanation <-- getitem result "explanation" ;;
    explanation <-- concat_str newline explanation ;;
    print explanation ;;;
    recommendations <-- getitem result "recommendations" ;;
    recommendations <-- concat_str newline recommendations ;;
    print recommendations.

(** The [while True] loop; [input()] takes the next line and raises
    [EOFError] when there is none. *)
Fixpoint main_loop (stdin : list string) : io unit :=
  print_no_end (newline ++ "> ") ;;;
  match stdin with
  | [] => raise EOFError
  | line :: stdin' =>
      let user_input := Strip.strip line in
      if (Str.lower user_input =? "quit")%string then ret tt
      else if (user_input =? "")%string then
        print "Please enter a case description." ;;;
        main_loop stdin'
      else
        let result := analyze_case files user_input in
        report result ;;;
        main_loop stdin'
  end.

Definition main (stdin : list string) : io unit :=
  print (newline ++ "Legal Case Analyzer") ;;;
  print "===================" ;;;
  print (newline ++ "Enter your case description below (type 'quit' to exit):") ;;;
  print "Example: 'Person A attacked Person B causing grievous injury'" ;;;
  print "Example: 'The accused stole a laptop from the office'" ;;;
  print "Example: 'Person A murdered Person B by stabbing multiple times'" ;;;
  main_loop stdin.

End Driver.

(* ================================================================= *)
(** ** Vocabulary of the specification *)

Definition not_space (c : ascii) : bool := negb (Char.isspace c).

(** A word: not empty and free of whitespace. *)
Definition is_word (w : string) : Prop :=
  w <> "" /\ Str.forallb not_space w = true.

(** The single space character. *)
Definition is_blank (c : ascii) : bool := (c =? " ")%char.

(** A word of lowercase ASCII letters. *)
Definition lowercase_word (w : string) : Prop :=
  w <> "" /\ Str.forallb Char.is_lower w = true.

(** [P] holds of some part of [text]. *)
Definition occurs_in (P : string -> Prop) (text : string) : Prop :=
  exists pre u post, text = pre ++ u ++ post /\ P u.

(** The word person in any case, then whitespace, then the letter [x]
    in either case. *)
Definition person_then (x : ascii) (u : string) : Prop :=
  exists w sp l,
    u = w ++ sp ++ String l ""
    /\ Str.lower w = "person"
    /\ sp <> "" /\ Str.forallb Char.isspace sp = true
    /\ Char.lower l = x.

(** [phrase], written in lowercase, is part of [text] in some case. *)
Definition contains_ignorecase (phrase text : string) : Prop :=
  occurs_in (fun u => Str.lower u = phrase) text.

(** The section codes of the static explanation table. *)
Definition table_codes : list string :=
  ["302"; "304"; "304A"; "308"; "319"; "320"; "376"; "379"; "392"; "420";
   "499"; "300"; "100"; "76"; "79"].

(** The three advisory texts. *)
Definition high_confidence_text : string :=
  "Recommendations:
- Strong confidence in legal analysis
- Recommended to proceed with legal proceedings under the identified section
- Document all evidence thoroughly".

Definition moderate_confidence_text : string :=
  "Recommendations:
- Moderate confidence in legal analysis
- Further investigation and evidence gathering recommended
- Consider consulting a legal expert for case-specific advice".


(** The floats in the order of binary64, as integers: a finite float
    by its value times [2 ^ 1074], the infinities beyond every finite
    float.  (NaN, which is not ordered, is given 0.) *)
Definition beyond : Z := (2 ^ 2100)%Z.

Definition key (x : spec_float) : Z :=
  match x with
  | S754_nan => 0%Z
  | S754_zero _ => 0%Z
  | S754_infinity s => cond_Zopp s beyond
  | S754_finite s m e => cond_Zopp s (Zpos m * 2 ^ (e + 1074))%Z
  end.

(** The float 1 by its mantissa and exponent. *)
Definition sf_one : spec_float := S754_finite false 4503599627370496 (-52).

(** A float that is not NaN. *)
Definition is_number (x : float) : Prop := Prim2SF x <> S754_nan.

(** A float that is finite and not zero. *)
Definition finite_nonzero (x : float) : Prop :=
  match Prim2SF x with
  | S754_finite _ _ _ => True
  | _ => False
  end.

(** The exact value of a finite float. *)
Definition exact (x : float) : Q := Qmake (key (Prim2SF x)) (2 ^ 1074)%positive.

(** A probability: a float between 0 and 1. *)
Definition probability (x : float) : Prop :=
  (0 <=? x)%float = true /\ (x <=? 1)%float = true.

(** The row of probabilities of a distribution: not empty, every
    entry a probability.  (Entries that are not negative and sum to 1
    are at most 1 each; that they sum to 1 is not used further.) *)
Definition distribution (xs : list float) : Prop :=
  xs <> [] /\ Forall probability xs.

(** The sum of the exact values of a row. *)
Definition total (xs : list float) : Q :=
  fold_right (fun x sum => (exact x + sum)%Q) 0%Q xs.

(** A row of floats that are not negative and whose exact values sum
    to 1. *)
Definition sums_to_one (xs : list float) : Prop :=
  xs <> [] /\ Forall (fun x => (0 <=? x)%float = true) xs
  /\ (total xs == 1)%Q.

(** [m] is the maximum entry of [xs]. *)
Definition maximum_of (xs : list float) (m : float) : Prop :=
  In m xs /\ Forall (fun x => (x <=? m)%float = true) xs.

(** The fields of a success record and of a failure record. *)
Definition success_keys : list string :=
  ["case_text"; "predicted_section"; "confidence"; "parties"; "explanation";
   "recommendations"].

Definition failure_keys : list string := ["case_text"; "error"; "message"].

Definition success_only_keys : list string :=
  ["predicted_section"; "confidence"; "parties"; "explanation";
   "recommendations"].

Section OrchestratorVocabulary.

Variables FeatureVector Config : Type.

(** Every artifact loads and every call on them returns: the
    classifier predicts the class [prediction] with the probabilities
    [probabilities], and the label encoder decodes the class to
    [section]. *)
Definition classifies (files : model_files FeatureVector Config)
           (case_text : string) (prediction : nat) (probabilities : list float)
           (section : string) : Prop :=
  exists clf vec enc cfg v predictions all_probabilities sections,
    rf_classifier_pkl files = Ok clf
    /\ tfidf_vectorizer_pkl files = Ok vec
    /\ label_encoder_pkl files = Ok enc
    /\ model_config_json files = Ok cfg
    /\ transform vec [preprocess_text case_text] = Ok v
    /\ predict clf v = Ok (prediction :: predictions)
    /\ predict_proba clf v = Ok (probabilities :: all_probabilities)
    /\ inverse_transform enc [prediction] = Ok (section :: sections).

(** The artifacts as far as they loaded. *)
Definition loaded (files : model_files FeatureVector Config)
  : result (classifier FeatureVector * vectorizer FeatureVector
            * label_encoder * Config) :=
  clf <- rf_classifier_pkl files ;;
  vec <- tfidf_vectorizer_pkl files ;;
  enc <- label_encoder_pkl files ;;
  cfg <- model_config_json files ;;
  Ok (clf, vec, enc, cfg).

(** A step of the analysis fails with the description [e]: loading an
    artifact, vectorizing, classifying (the prediction, the
    probabilities, their maximum) or decoding the label.  Each case
    says that the steps before it went through. *)
Inductive step_fails (files : model_files FeatureVector Config)
          (case_text : string) : string -> Prop :=
| fails_loading e :
    loaded files = Err e ->
    step_fails files case_text e
| fails_vectorizing clf vec enc cfg e :
    loaded files = Ok (clf, vec, enc, cfg) ->
    transform vec [preprocess_text case_text] = Err e ->
    step_fails files case_text e
| fails_predicting clf vec enc cfg v e :
    loaded files = Ok (clf, vec, enc, cfg) ->
    transform vec [preprocess_text case_text] = Ok v ->
    bind (predict clf v) item0 = Err e ->
    step_fails files case_text e
| fails_predicting_proba clf vec enc cfg v prediction e :
    loaded files = Ok (clf, vec, enc, cfg) ->
    transform vec [preprocess_text case_text] = Ok v ->
    bind (predict clf v) item0 = Ok prediction ->
    bind (predict_proba clf v) item0 = Err e ->
    step_fails files case_text e
| fails_decoding clf vec enc cfg v prediction probabilities e :
    loaded files = Ok (clf, vec, enc, cfg) ->
    transform vec [preprocess_text case_text] = Ok v ->
    bind (predict clf v) item0 = Ok prediction ->
    bind (predict_proba clf v) item0 = Ok probabilities ->
    bind (inverse_transform enc [prediction]) item0 = Err e ->
    step_fails files case_text e
| fails_taking_maximum clf vec enc cfg v prediction probabilities section e :
    loaded files = Ok (clf, vec, enc, cfg) ->
    transform vec [preprocess_text case_text] = Ok v ->
    bind (predict clf v) item0 = Ok prediction ->
    bind (predict_proba clf v) item0 = Ok probabilities ->
    bind (inverse_transform enc [prediction]) item0 = Ok section ->
    np_max probabilities = Err e ->
    step_fails files case_text e.

End OrchestratorVocabulary.

(** Artifacts for scenarios: everything loads, the vectorizer returns
    a feature vector, the classifier predicts [prediction] with the
    probabilities [probabilities], the encoder decodes every class to
    [section]. *)
Definition fixture (prediction : nat) (probabilities : list float)
           (section : string) : model_files unit unit :=
  {| rf_classifier_pkl :=
       Ok {| predict := fun _ => Ok [prediction];
             predict_proba := fun _ => Ok [probabilities] |};
     tfidf_vectorizer_pkl := Ok {| transform := fun _ => Ok tt |};
     label_encoder_pkl := Ok {| inverse_transform := fun _ => Ok [section] |};
     model_config_json := Ok tt |}.

(** The classifier file is missing; the other three load. *)
Definition fixture_missing_classifier : model_files unit unit :=
  {| rf_classifier_pkl :=
       Err "[Errno 2] No such file or directory: 'rf_classifier.pkl'";
     tfidf_vectorizer_pkl := Ok {| transform := fun _ => Ok tt |};
     label_encoder_pkl := Ok {| inverse_transform := fun _ => Ok ["302"] |};
     model_config_json := Ok tt |}.

(** The text of the end-to-end scenario. *)
Definition stabbing_case : string :=
  "Person A murdered Person B by stabbing multiple times".

(** [xs] is [ys] with some entries left out, the order kept. *)
Inductive subsequence {A : Type} : list A -> list A -> Prop :=
| subsequence_nil : subsequence [] []
| subsequence_skip x xs ys : subsequence xs ys -> subsequence xs (x :: ys)
| subsequence_keep x xs ys : subsequence xs ys -> subsequence (x :: xs) (x :: ys).

(** No character of [s] is an ASCII letter. *)
Definition no_letter (s : string) : bool :=
  Str.forallb (fun c => negb (Char.is_letter c)) s.

(** Only ASCII letters and whitespace. *)
Definition letters_and_space (s : string) : bool :=
  Str.forallb (fun c => Char.is_letter c || Char.isspace c) s.

(** An ASCII character that is neither a letter nor whitespace: a
    digit, a punctuation mark, a control character. *)
Definition ascii_symbol (c : ascii) : bool :=
  (Char.code c <? 128)%N && negb (Char.is_letter c) && negb (Char.isspace c).

Definition no_ascii_symbol (s : string) : bool :=
  Str.forallb (fun c => negb (ascii_symbol c)) s.

(** None of the phrases of the special cases is in [text], in any
    case. *)
Definition no_special_phrase (text : string) : Prop :=
  ~ contains_ignorecase "self-defense" text
  /\ ~ contains_ignorecase "self defense" text
  /\ ~ contains_ignorecase "minimum wage" text
  /\ ~ contains_ignorecase "labor" text
  /\ ~ contains_ignorecase "employer" text.

(** Artifacts as in [fixture], with a configuration document that
    holds the number [cfg]. *)
Definition fixture_with_config (cfg : nat) : model_files unit nat :=
  {| rf_classifier_pkl :=
       Ok {| predict := fun _ => Ok [0];
             predict_proba := fun _ => Ok [[0.7; 0.3]%float] |};
     tfidf_vectorizer_pkl := Ok {| transform := fun _ => Ok tt |};
     label_encoder_pkl := Ok {| inverse_transform := fun _ => Ok ["379"] |};
     model_config_json := Ok cfg |}.

(** A line that ends the session: the word quit in any case, with
    any whitespace around it. *)
Definition quit_line (line : string) : Prop :=
  exists l u r,
    line = l ++ u ++ r
    /\ Str.forallb Char.isspace l = true
    /\ Str.forallb Char.isspace r = true
    /\ Str.lower u = "quit".

(** The test of the loop for such a line. *)
Definition is_quit (line : string) : bool :=
  (Str.lower (Strip.strip line) =? "quit")%string.


(** A printed line. *)
Definition line_of (s : string) : string := s ++ newline.

(** What the driver writes before a result, with the case text. *)
Definition report_head (text : string) : list string :=
  [ line_of (newline ++ "Legal Case Analysis");
    line_of "==================================================";
    line_of (newline ++ "Case Description:");
    line_of text ].

(** What the driver writes for a failure record. *)
Definition failure_report (text e : string) : list string :=
  (report_head text
   ++ [ line_of (newline ++ "Error: " ++ e);
        line_of ("Message: " ++ error_message) ])%list.

(** What the driver writes for a success record; [shown] is the
    confidence as formatted. *)
Definition success_report (text section shown : string)
           (parties : list string) (explanation recommendations : string)
  : list string :=
  (report_head text
   ++ [ line_of (newline ++ "Legal Analysis:");
        line_of "--------------------------------------------------" ]
   ++ match parties with
      | [] => []
      | _ :: _ =>
          line_of (newline ++ "Parties Involved:")
          :: List.map (fun party => line_of ("- " ++ party)) parties
      end
   ++ [ line_of (newline ++ "Applicable IPC Section: " ++ section
                 ++ " (Confidence: " ++ shown ++ "%)");
        line_of (newline ++ explanation);
        line_of (newline ++ recommendations) ])%list.

(** The prompt and the notice for an empty line. *)
Definition prompt : string := newline ++ "> ".

Definition empty_notice : string :=
  line_of "Please enter a case description.".

(* ================================================================= *)
(** * Properties *)

(** ** Facts about characters *)

Module CharFacts.

Ltac all_chars c :=
  destruct c as [[] [] [] [] [] [] [] []]; vm_compute; try reflexivity;
  try discriminate; auto.

Lemma lower_of_lower c : Char.is_lower c = true -> Char.lower c = c.
Proof. all_chars c. Qed.

Lemma lower_not_space c : Char.is_lower c = true -> Char.isspace c = false.
Proof. all_chars c. Qed.

(** After [lower] and the substitution a character is a lowercase
    letter or whitespace. *)
Lemma lower_then_sub c :
  let d := Char.lower c in
  let e := if Char.is_letter d || Char.isspace d then d else " "%char in
  Char.is_lower e || Char.isspace e = true.
Proof. all_chars c. Qed.

Lemma space_is_space : Char.isspace " " = true.
Proof. reflexivity. Qed.

End CharFacts.

(** ** Facts about strings *)

Module StrFacts.

Lemma forallb_app p s t :
  Str.forallb p (s ++ t) = Str.forallb p s && Str.forallb p t.
Proof.
  induction s as [|c s IH]; simpl; [reflexivity|].
  now rewrite IH, andb_assoc.
Qed.

Lemma forallb_impl (p q : ascii -> bool) s :
  (forall c, p c = true -> q c = true) ->
  Str.forallb p s = true -> Str.forallb q s = true.
Proof.
  intros Hpq. induction s as [|c s IH]; simpl; [easy|].
  rewrite !andb_true_iff. intros [H1 H2]. auto.
Qed.

Lemma map_id_on (f : ascii -> ascii) (p : ascii -> bool) s :
  (forall c, p c = true -> f c = c) ->
  Str.forallb p s = true -> Str.map f s = s.
Proof.
  intros Hf. induction s as [|c s IH]; simpl; [easy|].
  rewrite andb_true_iff. intros [H1 H2]. now rewrite Hf, IH.
Qed.

Lemma map_app f s t : Str.map f (s ++ t) = Str.map f s ++ Str.map f t.
Proof. induction s as [|c s IH]; simpl; [reflexivity | now rewrite IH]. Qed.

Lemma append_assoc (s t u : string) : (s ++ t) ++ u = s ++ (t ++ u).
Proof. induction s as [|c s IH]; simpl; [reflexivity | now rewrite IH]. Qed.

Lemma append_length (s t : string) :
  String.length (s ++ t) = String.length s + String.length t.
Proof. induction s as [|c s IH]; simpl; [reflexivity | now rewrite IH]. Qed.

Lemma substring_prefix (u v : string) :
  substring 0 (String.length u) (u ++ v) = u.
Proof. induction u as [|c u IH]; simpl; [now destruct v | now rewrite IH]. Qed.

(** *** [split] *)

Lemma split_cons c s :
  Str.split (String c s) =
  if Char.isspace c then Str.split s
  else match s with
       | EmptyString => [String c EmptyString]
       | String d _ =>
           if Char.isspace d then String c EmptyString :: Str.split s
           else match Str.split s with
                | w :: ws => String c w :: ws
                | [] => [String c EmptyString]
                end
       end.
Proof. reflexivity. Qed.

Lemma split_words s : Forall is_word (Str.split s).
Proof.
  induction s as [|c s IH]; [constructor|].
  rewrite split_cons.
  destruct (Char.isspace c) eqn:Hc; [assumption|].
  assert (Hone : is_word (String c "")).
  { split; [discriminate|]. simpl. unfold not_space. now rewrite Hc. }
  destruct s as [|d s']; [cbv iota; now constructor|].
  destruct (Char.isspace d) eqn:Hd; [now constructor|].
  destruct (Str.split (String d s')) as [|w ws]; [cbv iota; now constructor|].
  inversion IH as [|? ? [_ Hw] Hws]; subst.
  constructor; [|assumption].
  split; [discriminate|]. simpl. unfold not_space at 1. now rewrite Hc.
Qed.

Lemma split_forallb p s :
  Str.forallb p s = true ->
  Forall (fun w => Str.forallb p w = true) (Str.split s).
Proof.
  induction s as [|c s IH]; [constructor|].
  rewrite split_cons. simpl Str.forallb at 1.
  rewrite andb_true_iff. intros [Hc Hs]. specialize (IH Hs).
  destruct (Char.isspace c); [assumption|].
  assert (Hone : Str.forallb p (String c "") = true) by (simpl; now rewrite Hc).
  destruct s as [|d s']; [cbv iota; now constructor|].
  destruct (Char.isspace d); [now constructor|].
  destruct (Str.split (String d s')) as [|w ws]; [cbv iota; now constructor|].
  inversion IH; subst. constructor; [|assumption].
  simpl. now rewrite Hc.
Qed.

Lemma not_space_cons c w :
  Str.forallb not_space (String c w) = true ->
  Char.isspace c = false /\ Str.forallb not_space w = true.
Proof.
  simpl. rewrite andb_true_iff. unfold not_space at 1.
  rewrite negb_true_iff. tauto.
Qed.

(** A word on its own splits into itself. *)
Lemma split_word c w :
  Str.forallb not_space (String c w) = true ->
  Str.split (String c w) = [String c w].
Proof.
  revert c. induction w as [|d w IH]; intros c H;
    rewrite split_cons; destruct (@not_space_cons _ _ H) as [Hc Hw]; rewrite Hc.
  - reflexivity.
  - destruct (@not_space_cons _ _ Hw) as [Hd _]. rewrite Hd.
    now rewrite IH.
Qed.

(** A word, one space, and more text. *)
Lemma split_word_then c w t :
  Str.forallb not_space (String c w) = true ->
  Str.split (String c w ++ String " " t) = String c w :: Str.split t.
Proof.
  revert c. induction w as [|d w IH]; intros c H;
    destruct (@not_space_cons _ _ H) as [Hc Hw].
  - change (String c "" ++ String " " t) with (String c (String " " t)).
    rewrite split_cons, Hc. rewrite CharFacts.space_is_space.
    now rewrite split_cons, CharFacts.space_is_space.
  - change (String c (String d w) ++ String " " t)
      with (String c (String d w ++ String " " t)).
    rewrite split_cons, Hc.
    destruct (@not_space_cons _ _ Hw) as [Hd _].
    change (String d w ++ String " " t) with (String d (w ++ String " " t)).
    cbv iota. rewrite Hd.
    change (String d (w ++ String " " t)) with (String d w ++ String " " t).
    now rewrite IH.
Qed.

Lemma split_join ws :
  Forall is_word ws -> Str.split (Str.join " " ws) = ws.
Proof.
  induction 1 as [|w ws [Hne Hw] Hws IH]; [reflexivity|].
  destruct w as [|c w]; [congruence|].
  destruct ws as [|w' ws'].
  - now apply split_word.
  - change (Str.join " " (String c w :: w' :: ws'))
      with (String c w ++ String " " (Str.join " " (w' :: ws'))).
    rewrite split_word_then by assumption. now rewrite IH.
Qed.

End StrFacts.

(** ** Text normaliser *)

Module NormalizerFacts.
Import StrFacts.

Lemma lowercase_word_is_word w : lowercase_word w -> is_word w.
Proof.
  intros [Hne Hw]. split; [assumption|].
  apply forallb_impl with (p := Char.is_lower); [|assumption].
  intros c Hc. unfold not_space. now rewrite CharFacts.lower_not_space.
Qed.

Lemma join_cons2 w w' ws :
  Str.join " " (w :: w' :: ws) = w ++ String " " (Str.join " " (w' :: ws)).
Proof. reflexivity. Qed.

Lemma join_not_empty w ws : w <> "" -> Str.join " " (w :: ws) <> "".
Proof.
  intros Hw. destruct ws as [|w' ws]; [exact Hw|].
  rewrite join_cons2. destruct w; [congruence | discriminate].
Qed.

Lemma join_chars ws :
  Forall lowercase_word ws ->
  Str.forallb (fun c => Char.is_lower c || is_blank c) (Str.join " " ws) = true.
Proof.
  induction 1 as [|w ws [_ Hw] Hws IH]; [reflexivity|].
  assert (Hw' : Str.forallb (fun c => Char.is_lower c || is_blank c) w = true).
  { apply forallb_impl with (p := Char.is_lower); [|assumption].
    intros c Hc. now rewrite Hc. }
  destruct ws as [|w' ws']; [exact Hw'|].
  rewrite join_cons2, forallb_app, Hw'. simpl. exact IH.
Qed.

Lemma join_first ws c :
  Forall lowercase_word ws ->
  Str.first (Str.join " " ws) = Some c -> Char.is_lower c = true.
Proof.
  intros H. destruct H as [|w ws [Hne Hw] _]; [discriminate|].
  destruct w as [|d w]; [congruence|].
  simpl in Hw. apply andb_true_iff in Hw as [Hd _].
  destruct ws; simpl; intros [= <-]; exact Hd.
Qed.

Lemma last_cons c s : s <> "" -> Str.last (String c s) = Str.last s.
Proof. destruct s; [congruence | reflexivity]. Qed.

Lemma last_app s t : t <> "" -> Str.last (s ++ t) = Str.last t.
Proof.
  intros Ht. induction s as [|c s IH]; [reflexivity|].
  change (String c s ++ t) with (String c (s ++ t)).
  rewrite last_cons; [exact IH|]. destruct s; [exact Ht | discriminate].
Qed.

Lemma last_forallb p s c :
  Str.forallb p s = true -> Str.last s = Some c -> p c = true.
Proof.
  induction s as [|d s IH]; [discriminate|].
  simpl Str.forallb. rewrite andb_true_iff. intros [Hd Hs].
  destruct s as [|e s'].
  - simpl. now intros [= <-].
  - rewrite last_cons by discriminate. now apply IH.
Qed.

Lemma join_last ws c :
  Forall lowercase_word ws ->
  Str.last (Str.join " " ws) = Some c -> Char.is_lower c = true.
Proof.
  induction 1 as [|w ws [Hne Hw] Hws IH]; [discriminate|].
  destruct ws as [|w' ws'].
  - now apply last_forallb.
  - rewrite join_cons2.
    assert (Hj : Str.join " " (w' :: ws') <> "").
    { apply join_not_empty. inversion Hws as [|? ? [Hne' _] _]. exact Hne'. }
    rewrite last_app by discriminate. rewrite last_cons by exact Hj. exact IH.
Qed.

Lemma no_double_blank_word w :
  Str.forallb Char.is_lower w = true ->
  Str.no_two_adjacent is_blank w = true.
Proof.
  induction w as [|c w IH]; [reflexivity|].
  simpl. rewrite andb_true_iff. intros [Hc Hw].
  rewrite (IH Hw), andb_true_r.
  replace (is_blank c) with false; [reflexivity|].
  revert Hc. clear. CharFacts.all_chars c.
Qed.

Lemma no_double_blank_word_then w t :
  Str.forallb Char.is_lower w = true ->
  w <> "" ->
  (forall d, Str.first t = Some d -> is_blank d = false) ->
  Str.no_two_adjacent is_blank t = true ->
  Str.no_two_adjacent is_blank (w ++ String " " t) = true.
Proof.
  intros Hw Hne Hfirst Ht.
  induction w as [|c w IH]; [congruence|].
  simpl in Hw. apply andb_true_iff in Hw as [Hc Hw].
  assert (Hb : is_blank c = false) by (revert Hc; clear; CharFacts.all_chars c).
  change (String c w ++ String " " t) with (String c (w ++ String " " t)).
  cbn [Str.no_two_adjacent]. rewrite Hb, andb_false_l. cbn [negb andb].
  destruct w as [|d w'].
  - cbn [append Str.no_two_adjacent]. rewrite Ht, andb_true_r.
    destruct t as [|e t']; [reflexivity|].
    now rewrite (Hfirst e eq_refl).
  - apply IH; [assumption | discriminate].
Qed.

Lemma join_no_double_blank ws :
  Forall lowercase_word ws ->
  Str.no_two_adjacent is_blank (Str.join " " ws) = true.
Proof.
  induction 1 as [|w ws [Hne Hw] Hws IH]; [reflexivity|].
  destruct ws as [|w' ws']; [now apply no_double_blank_word|].
  rewrite join_cons2. apply no_double_blank_word_then; try assumption.
  intros d Hd. apply join_first in Hd; [|assumption].
  revert Hd. clear. CharFacts.all_chars d.
Qed.

(** What [str.lower] and the substitution leave behind. *)
Lemma cleaned_chars s :
  Str.forallb (fun c => Char.is_lower c || Char.isspace c)
              (sub_non_letters (Str.lower s)) = true.
Proof.
  unfold sub_non_letters, Str.lower.
  induction s as [|c s IH]; [reflexivity|].
  cbn [Str.map Str.forallb]. rewrite IH, andb_true_r.
  exact (CharFacts.lower_then_sub c).
Qed.

(** The words the normaliser joins. *)
Lemma normal_words s :
  Forall lowercase_word (Str.split (sub_non_letters (Str.lower s))).
Proof.
  pose proof (split_words (sub_non_letters (Str.lower s))) as Hw.
  pose proof (split_forallb _ _ (cleaned_chars s)) as Hc.
  induction Hw as [|w ws [Hne Hns] Hws IH]; [constructor|].
  inversion Hc as [|? ? Hcw Hcws]; subst.
  constructor; [|now apply IH].
  split; [assumption|].
  clear - Hns Hcw. induction w as [|c w IH]; [reflexivity|].
  simpl in *. apply andb_true_iff in Hns as [Hn Hns].
  apply andb_true_iff in Hcw as [Hc Hcw].
  rewrite (IH Hns Hcw), andb_true_r.
  unfold not_space in Hn. apply negb_true_iff in Hn.
  rewrite Hn, orb_false_r in Hc. exact Hc.
Qed.

(** The normaliser leaves a text of lowercase words alone. *)
Lemma preprocess_text_fixes_joined ws :
  Forall lowercase_word ws ->
  preprocess_text (Str.join " " ws) = Str.join " " ws.
Proof.
  intros Hws. unfold preprocess_text.
  pose proof (join_chars Hws) as Hchars.
  assert (Hlow : Str.lower (Str.join " " ws) = Str.join " " ws).
  { unfold Str.lower. eapply map_id_on; [|exact Hchars].
    intros c Hc. apply orb_true_iff in Hc as [Hc|Hc].
    - now apply CharFacts.lower_of_lower.
    - revert Hc. clear. CharFacts.all_chars c. }
  rewrite Hlow.
  assert (Hsub : sub_non_letters (Str.join " " ws) = Str.join " " ws).
  { unfold sub_non_letters. eapply map_id_on; [|exact Hchars].
    intros c Hc. revert Hc. clear. CharFacts.all_chars c. }
  rewrite Hsub, split_join; [reflexivity|].
  eapply Forall_impl; [|exact Hws]. exact lowercase_word_is_word.
Qed.

End NormalizerFacts.

(** C4. The normaliser is a total function that is idempotent, and
    its output is a sequence of non-empty words of lowercase ASCII
    letters joined by single spaces: every character is a lowercase
    letter or the space, no two spaces are adjacent, and neither the
    first nor the last character is whitespace. *)
Theorem preprocess_text_idempotent_normal_form (s : string) :
  preprocess_text (preprocess_text s) = preprocess_text s
  /\ (exists ws, Forall lowercase_word ws
                 /\ preprocess_text s = Str.join " " ws)
  /\ Str.forallb (fun c => Char.is_lower c || is_blank c)
                 (preprocess_text s) = true
  /\ Str.no_two_adjacent is_blank (preprocess_text s) = true
  /\ (forall c, Str.first (preprocess_text s) = Some c ->
                Char.isspace c = false)
  /\ (forall c, Str.last (preprocess_text s) = Some c ->
                Char.isspace c = false).
Proof.
  pose proof (NormalizerFacts.normal_words s) as Hws.
  change (preprocess_text s)
    with (Str.join " " (Str.split (sub_non_letters (Str.lower s)))).
  set (ws := Str.split (sub_non_letters (Str.lower s))) in *.
  repeat split.
  - now apply NormalizerFacts.preprocess_text_fixes_joined.
  - exists ws. now split.
  - now apply NormalizerFacts.join_chars.
  - now apply NormalizerFacts.join_no_double_blank.
  - intros c Hc. apply CharFacts.lower_not_space.
    now apply NormalizerFacts.join_first with (ws := ws).
  - intros c Hc. apply CharFacts.lower_not_space.
    now apply NormalizerFacts.join_last with (ws := ws).
Qed.

(** ** The matcher against what a pattern denotes *)

Module ReFacts.
Import StrFacts.

Lemma matches_not_empty r u : Re.matches r u -> u <> "".
Proof.
  induction 1 as [p c Hc|r1 r2 u v Hu IHu Hv IHv| | | |]; try discriminate;
    try assumption.
  destruct u; [congruence | discriminate].
Qed.

Lemma or_else_some {A} (x y : option A) :
  Re.or_else x y <> None <-> x <> None \/ y <> None.
Proof. destruct x, y; simpl; split; intros; try tauto; try (left; discriminate);
       try (right; discriminate); intuition congruence. Qed.

Lemma plus_sound p s k x :
  Re.plus p s k = Some x ->
  exists u v, s = u ++ v /\ Re.matches (Re.Plus p) u /\ k v = Some x.
Proof.
  induction s as [|c s IH]; simpl; [discriminate|].
  destruct (p c) eqn:Hc; [|discriminate].
  destruct (Re.plus p s k) as [y|] eqn:Hrec; simpl.
  - intros [= ->]. destruct (IH eq_refl) as (u & v & -> & Hu & Hk).
    exists (String c u), v. repeat split; [|assumption].
    now apply Re.m_plus_more.
  - intros Hk. exists (String c ""), s. repeat split; [|assumption].
    now apply Re.m_plus_one.
Qed.

Lemma run_sound r : forall s k x,
  Re.run r s k = Some x ->
  exists u v, s = u ++ v /\ Re.matches r u /\ k v = Some x.
Proof.
  induction r as [p|r1 IH1 r2 IH2|r1 IH1 r2 IH2|p]; intros s k x; simpl.
  - destruct s as [|c s]; [discriminate|].
    destruct (p c) eqn:Hc; [|discriminate].
    intros Hk. exists (String c ""), s. repeat split; [|assumption].
    now apply Re.m_cls.
  - intros H. apply IH1 in H as (u1 & v1 & -> & Hu1 & H).
    apply IH2 in H as (u2 & v2 & -> & Hu2 & H).
    exists (u1 ++ u2), v2. rewrite append_assoc. repeat split; [|assumption].
    now apply Re.m_seq.
  - destruct (Re.run r1 s k) as [y|] eqn:H1; simpl.
    + intros [= ->]. apply IH1 in H1 as (u & v & -> & Hu & H).
      exists u, v. repeat split; [|assumption]. now apply Re.m_alt_l.
    + intros H. apply IH2 in H as (u & v & -> & Hu & H).
      exists u, v. repeat split; [|assumption]. now apply Re.m_alt_r.
  - apply plus_sound.
Qed.

Lemma run_complete r u :
  Re.matches r u ->
  forall v k, k v <> None -> Re.run r (u ++ v) k <> None.
Proof.
  induction 1 as [p c Hc|r1 r2 u1 u2 _ IH1 _ IH2|r1 r2 u _ IH|r1 r2 u _ IH
                 |p c Hc|p c u Hc _ IH]; intros v k Hk; simpl.
  - now rewrite Hc.
  - rewrite append_assoc. apply IH1. now apply IH2.
  - apply or_else_some. left. now apply IH.
  - apply or_else_some. right. now apply IH.
  - rewrite Hc. apply or_else_some. now right.
  - rewrite Hc. apply or_else_some. left. now apply (IH v k).
Qed.

(** A match at the start of [s] splits [s] into a text the pattern
    denotes and the rest. *)
Lemma match_at_sound r s rest :
  Re.match_at r s = Some rest ->
  exists u, s = u ++ rest /\ Re.matches r u.
Proof.
  unfold Re.match_at. intros H.
  apply run_sound in H as (u & v & -> & Hu & [= ->]). now exists u.
Qed.

Lemma match_at_complete r u v :
  Re.matches r u -> Re.match_at r (u ++ v) <> None.
Proof.
  intros Hu. unfold Re.match_at. now apply run_complete.
Qed.

(** [search] finds a match exactly when some part of the text is
    denoted by the pattern. *)
Lemma search_spec r s :
  Re.search r s = true <-> occurs_in (Re.matches r) s.
Proof.
  split.
  - induction s as [|c s IH]; simpl.
    + destruct (Re.match_at r "") as [rest|] eqn:H; [|discriminate].
      intros _. apply match_at_sound in H as (u & Hs & Hu).
      exists "", u, rest. now split.
    + destruct (Re.match_at r (String c s)) as [rest|] eqn:H.
      * intros _. apply match_at_sound in H as (u & Hs & Hu).
        exists "", u, rest. now split.
      * intros Hs. destruct (IH Hs) as (pre & u & post & -> & Hu).
        exists (String c pre), u, post. now split.
  - intros (pre & u & post & -> & Hu).
    induction pre as [|c pre IH]; simpl.
    + pose proof (match_at_complete post Hu) as H.
      destruct u as [|d u]; [now apply matches_not_empty in Hu|].
      simpl in *.
      now destruct (Re.match_at r (String d (u ++ post))).
    + destruct (Re.match_at r (String c (pre ++ u ++ post))); [reflexivity|].
      exact IH.
Qed.

(** *** [findall] *)

Lemma matched_app u rest : Re.matched (u ++ rest) rest = u.
Proof.
  unfold Re.matched. rewrite append_length, Nat.add_sub.
  apply substring_prefix.
Qed.

Lemma occurs_in_cons (P : string -> Prop) c s :
  occurs_in P s -> occurs_in P (String c s).
Proof.
  intros (pre & u & post & -> & Hu). now exists (String c pre), u, post.
Qed.

(** Every text [findall] returns is denoted by the pattern and is a
    part of the text searched. *)
Lemma findall_from_sound r s : forall skip m,
  In m (Re.findall_from r skip s) ->
  Re.matches r m /\ occurs_in (eq m) s.
Proof.
  induction s as [|c s IH]; intros skip m; cbn [Re.findall_from];
    [intros []|].
  destruct skip as [|n].
  - destruct (Re.match_at r (String c s)) as [rest|] eqn:Hm.
    + apply match_at_sound in Hm as (u & Hs & Hu).
      rewrite Hs at 1. rewrite matched_app.
      intros [<-|Hin].
      * split; [exact Hu|]. exists "", u, rest. now split.
      * apply IH in Hin as [H1 H2]. split; [exact H1|].
        now apply occurs_in_cons.
    + intros Hin. apply IH in Hin as [H1 H2]. split; [exact H1|].
      now apply occurs_in_cons.
  - intros Hin. apply IH in Hin as [H1 H2]. split; [exact H1|].
    now apply occurs_in_cons.
Qed.

Lemma findall_sound r s m :
  In m (Re.findall r s) -> Re.matches r m /\ occurs_in (eq m) s.
Proof. apply findall_from_sound. Qed.

(** *** The literals of a word *)

Lemma lower_cons_inv w p pat :
  Str.lower w = Str.lower (String p pat) ->
  exists c w', w = String c w' /\ Char.lower c = Char.lower p
               /\ Str.lower w' = Str.lower pat.
Proof.
  destruct w as [|c w']; [discriminate|].
  unfold Str.lower. simpl. intros [= Hc Hw]. now exists c, w'.
Qed.

Lemma matches_word_ignorecase pat : forall w r rest,
  Str.lower w = Str.lower pat ->
  Re.matches r rest ->
  Re.matches (Re.word Char.lit_ignorecase pat r) (w ++ rest).
Proof.
  induction pat as [|p pat IH]; intros w r rest Hw Hr.
  - destruct w; [exact Hr | discriminate].
  - apply lower_cons_inv in Hw as (c & w' & -> & Hc & Hw').
    change (String c w' ++ rest) with (String c "" ++ (w' ++ rest)).
    apply Re.m_seq; [|now apply IH].
    apply Re.m_cls. unfold Char.lit_ignorecase. rewrite Hc.
    apply Ascii.eqb_refl.
Qed.

Lemma matches_word_ignorecase_inv pat : forall r u,
  Re.matches (Re.word Char.lit_ignorecase pat r) u ->
  exists w rest, u = w ++ rest /\ Str.lower w = Str.lower pat
                 /\ Re.matches r rest.
Proof.
  induction pat as [|p pat IH]; intros r u Hu; simpl in Hu.
  - now exists "", u.
  - inversion Hu as [|r1 r2 u1 u2 H1 H2| | | |]; subst.
    inversion H1 as [q c Hc| | | | |]; subst.
    apply IH in H2 as (w & rest & -> & Hw & Hr).
    exists (String c w), rest. repeat split; [|assumption].
    unfold Str.lower in *. simpl. rewrite Hw. f_equal.
    unfold Char.lit_ignorecase in Hc. now apply Ascii.eqb_eq in Hc.
Qed.

Lemma matches_plus p sp :
  Re.matches (Re.Plus p) sp <-> sp <> "" /\ Str.forallb p sp = true.
Proof.
  split.
  - remember (Re.Plus p) as r eqn:Hr.
    induction 1 as [| | | |q c Hc|q c u Hc Hu IH]; try discriminate;
      injection Hr as ->.
    + split; [discriminate|]. simpl. now rewrite Hc.
    + split; [discriminate|]. simpl. rewrite Hc. now apply IH.
  - intros [Hne Hsp]. induction sp as [|c sp IH]; [congruence|].
    simpl in Hsp. apply andb_true_iff in Hsp as [Hc Hsp].
    destruct sp as [|d sp'].
    + now apply Re.m_plus_one.
    + apply Re.m_plus_more; [assumption|]. apply IH; [discriminate|assumption].
Qed.

(** The three search patterns denote what the specification says. *)
Lemma person_letter_spec x u :
  Char.lower x = x ->
  Re.matches (person_letter x) u <-> person_then x u.
Proof.
  intros Hx. unfold person_letter, person_then. split.
  - intros H. apply matches_word_ignorecase_inv in H as (w & rest & -> & Hw & H).
    inversion H as [|r1 r2 sp t Hsp Ht| | | |]; subst.
    inversion Ht as [q l Hl| | | | |]; subst.
    apply matches_plus in Hsp as [Hne Hsp].
    exists w, sp, l. repeat split; try assumption.
    unfold Char.lit_ignorecase in Hl. apply Ascii.eqb_eq in Hl. congruence.
  - intros (w & sp & l & -> & Hw & Hne & Hsp & Hl).
    apply matches_word_ignorecase; [exact Hw|].
    apply Re.m_seq; [now apply matches_plus|].
    apply Re.m_cls. unfold Char.lit_ignorecase. rewrite Hl, Hx.
    apply Ascii.eqb_refl.
Qed.

Lemma search_person_letter x text :
  Char.lower x = x ->
  Re.search (person_letter x) text = true <-> occurs_in (person_then x) text.
Proof.
  intros Hx. rewrite search_spec. unfold occurs_in.
  split; intros (pre & u & post & Ht & Hu); exists pre, u, post;
    (split; [exact Ht|]); now apply (person_letter_spec u Hx).
Qed.

End ReFacts.

(** ** Participant extractor *)

Module ExtractorFacts.
Local Open Scope list_scope.

Lemma mem_In x xs : Str.mem x xs = true <-> In x xs.
Proof.
  unfold Str.mem. rewrite existsb_exists. split.
  - intros (y & Hy & Hxy). apply String.eqb_eq in Hxy. now subst.
  - intros H. exists x. split; [assumption | apply String.eqb_refl].
Qed.

Lemma mem_not_In x xs : Str.mem x xs = false <-> ~ In x xs.
Proof.
  rewrite <- mem_In. destruct (Str.mem x xs); split; congruence.
Qed.

(** One turn of the loop, by cases. *)
Lemma generic_pass_standard m ms parties :
  In (Str.lower m) standard_keys ->
  generic_pass (m :: ms) parties = generic_pass ms parties.
Proof.
  intros H. apply mem_In in H. cbn [generic_pass]. now rewrite H.
Qed.

Lemma generic_pass_duplicate m ms parties :
  In (Str.lower m) (map Str.lower parties) ->
  generic_pass (m :: ms) parties = generic_pass ms parties.
Proof.
  intros H. apply mem_In in H. cbn [generic_pass]. rewrite H.
  now destruct (negb (Str.mem (Str.lower m) standard_keys)).
Qed.

Lemma generic_pass_fresh m ms parties :
  ~ In (Str.lower m) standard_keys ->
  ~ In (Str.lower m) (map Str.lower parties) ->
  generic_pass (m :: ms) parties = generic_pass ms (parties ++ [m]).
Proof.
  intros H1 H2. apply mem_not_In in H1, H2. cbn [generic_pass].
  now rewrite H1, H2.
Qed.

Lemma generic_pass_cases m parties :
  (In (Str.lower m) standard_keys \/ In (Str.lower m) (map Str.lower parties))
  \/ (~ In (Str.lower m) standard_keys
      /\ ~ In (Str.lower m) (map Str.lower parties)).
Proof.
  destruct (Str.mem (Str.lower m) standard_keys) eqn:H1.
  - left. left. now apply mem_In.
  - destruct (Str.mem (Str.lower m) (map Str.lower parties)) eqn:H2.
    + left. right. now apply mem_In.
    + right. split; now apply mem_not_In.
Qed.

(** The list the loop is started with is a prefix of its result. *)
Lemma generic_pass_extends ms : forall parties,
  exists added, generic_pass ms parties = (parties ++ added)%list.
Proof.
  induction ms as [|m ms IH]; intros parties.
  - exists []. simpl. now rewrite app_nil_r.
  - destruct (generic_pass_cases m parties) as [[H|H]|[H1 H2]].
    + rewrite generic_pass_standard by assumption. apply IH.
    + rewrite generic_pass_duplicate by assumption. apply IH.
    + rewrite generic_pass_fresh by assumption.
      destruct (IH (parties ++ [m])) as [added ->].
      exists (m :: added). now rewrite <- app_assoc.
Qed.

(** Where the entries of the result come from. *)
Lemma generic_pass_In ms : forall parties p,
  In p (generic_pass ms parties) ->
  In p parties \/ (In p ms /\ ~ In (Str.lower p) standard_keys).
Proof.
  induction ms as [|m ms IH]; intros parties p; [now left|].
  destruct (generic_pass_cases m parties) as [[H|H]|[H1 H2]].
  - rewrite generic_pass_standard by assumption.
    intros Hp. apply IH in Hp as [Hp|[Hp Hk]]; [now left | right; split; [now right | assumption]].
  - rewrite generic_pass_duplicate by assumption.
    intros Hp. apply IH in Hp as [Hp|[Hp Hk]]; [now left | right; split; [now right | assumption]].
  - rewrite generic_pass_fresh by assumption.
    intros Hp. apply IH in Hp as [Hp|[Hp Hk]]; [|right; split; [now right | assumption]].
    apply in_app_or in Hp as [Hp|[<-|[]]]; [now left|].
    right. split; [now left | assumption].
Qed.

(** No two entries of the result agree once lowercased, if that held
    of the list the loop is started with. *)
Lemma generic_pass_NoDup ms : forall parties,
  NoDup (map Str.lower parties) ->
  NoDup (map Str.lower (generic_pass ms parties)).
Proof.
  induction ms as [|m ms IH]; intros parties Hnd; [assumption|].
  destruct (generic_pass_cases m parties) as [[H|H]|[H1 H2]].
  - rewrite generic_pass_standard by assumption. now apply IH.
  - rewrite generic_pass_duplicate by assumption. now apply IH.
  - rewrite generic_pass_fresh by assumption. apply IH.
    rewrite map_app. simpl.
    apply NoDup_app; [assumption | repeat constructor; intros [] |].
    intros x Hx [<-|[]]. contradiction.
Qed.

(** Every match that is not a standard key is in the result, up to
    case. *)
Lemma generic_pass_keeps ms : forall parties m,
  (In m parties \/ (In m ms /\ ~ In (Str.lower m) standard_keys)) ->
  In (Str.lower m) (map Str.lower (generic_pass ms parties)).
Proof.
  induction ms as [|m0 ms IH]; intros parties m Hm.
  - destruct Hm as [Hm|[[] _]]. simpl. now apply in_map.
  - destruct (generic_pass_cases m0 parties) as [[H|H]|[H1 H2]].
    + rewrite generic_pass_standard by assumption.
      destruct Hm as [Hm|[[<-|Hm] Hk]]; [apply IH; now left | contradiction |].
      apply IH. now right.
    + rewrite generic_pass_duplicate by assumption.
      destruct Hm as [Hm|[[<-|Hm] Hk]]; [apply IH; now left | |].
      * destruct (generic_pass_extends ms parties) as [added ->].
        rewrite map_app. apply in_or_app. now left.
      * apply IH. now right.
    + rewrite generic_pass_fresh by assumption.
      destruct Hm as [Hm|[[<-|Hm] Hk]]; apply IH.
      * left. apply in_or_app. now left.
      * left. apply in_or_app. right. now left.
      * now right.
Qed.

(** The extractor is the generic pass followed by the appends. *)
Lemma extract_parties_eq text :
  extract_parties text =
  (generic_pass (Re.findall person_pattern text) []
   ++ (if Re.search (person_letter "a") text then ["Person A"] else [])
   ++ (if Re.search (person_letter "b") text then ["Person B"] else [])
   ++ (if Re.search (person_letter "c") text then ["Person C"] else []))%list.
Proof.
  unfold extract_parties, append_if_found.
  destruct (Re.search (person_letter "a") text),
           (Re.search (person_letter "b") text),
           (Re.search (person_letter "c") text);
    rewrite <- ?app_assoc, ?app_nil_r; reflexivity.
Qed.

End ExtractorFacts.

(** C6. The output of the extractor is the result of the generic pass
    followed by the canonical names, in the order A, B, C; "Person A"
    (respectively B, C) is among them exactly when the text has, in
    any case, the word person, whitespace and the letter a
    (respectively b, c) somewhere.  "Person A attacked Person B"
    yields "Person A" and "Person B", and so does the lowercase text. *)
Theorem extract_parties_canonical_appends (text : string) :
  exists a b c : bool,
    extract_parties text =
      (generic_pass (Re.findall person_pattern text) []
       ++ (if a then ["Person A"] else [])
       ++ (if b then ["Person B"] else [])
       ++ (if c then ["Person C"] else []))%list
    /\ (a = true <-> occurs_in (person_then "a") text)
    /\ (b = true <-> occurs_in (person_then "b") text)
    /\ (c = true <-> occurs_in (person_then "c") text)
    /\ (occurs_in (person_then "a") text -> In "Person A" (extract_parties text))
    /\ (occurs_in (person_then "b") text -> In "Person B" (extract_parties text))
    /\ (occurs_in (person_then "c") text -> In "Person C" (extract_parties text))
    /\ extract_parties "Person A attacked Person B"
       = ["attacked Person"; "Person A"; "Person B"]
    /\ extract_parties "person a attacked person b"
       = ["attacked person"; "Person A"; "Person B"].
Proof.
  exists (Re.search (person_letter "a") text),
         (Re.search (person_letter "b") text),
         (Re.search (person_letter "c") text).
  pose proof (@ReFacts.search_person_letter "a" text eq_refl) as Ha.
  pose proof (@ReFacts.search_person_letter "b" text eq_refl) as Hb.
  pose proof (@ReFacts.search_person_letter "c" text eq_refl) as Hc.
  split; [apply ExtractorFacts.extract_parties_eq|].
  repeat (split; [assumption|]).
  rewrite ExtractorFacts.extract_parties_eq.
  split; [|split; [|split; [|split; vm_compute; reflexivity]]].
  - intros H. apply Ha in H. rewrite H.
    apply in_or_app. right. now left.
  - intros H. apply Hb in H. rewrite H.
    apply in_or_app. right. apply in_or_app. right. now left.
  - intros H. apply Hc in H. rewrite H.
    apply in_or_app. right. apply in_or_app. right.
    apply in_or_app. right. now left.
Qed.

(** C7. In the generic pass a match whose lowercase form is "person a",
    "person b" or "person c" leaves the list as it is, and so does a
    match whose lowercase form is that of an entry already there.
    Hence the entries of the generic pass, which are the first
    entries of the output, are matches of the pattern in the text
    (parts of the text that the pattern denotes), none of them
    lowercases to one of the three strings, no two of them agree once
    lowercased, and every other match is there up to case. *)
Theorem generic_pass_excludes_and_deduplicates (text : string) :
  let matches := Re.findall person_pattern text in
  let generic := generic_pass matches [] in
  (forall m ms parties,
      In (Str.lower m) standard_keys ->
      generic_pass (m :: ms) parties = generic_pass ms parties)
  /\ (forall m ms parties,
      In (Str.lower m) (map Str.lower parties) ->
      generic_pass (m :: ms) parties = generic_pass ms parties)
  /\ (forall m, In m matches -> In (Str.lower m) standard_keys ->
                ~ In m generic)
  /\ (forall p, In p generic ->
                In p matches /\ ~ In (Str.lower p) standard_keys)
  /\ (forall p, In p generic ->
                Re.matches person_pattern p /\ occurs_in (eq p) text)
  /\ NoDup (map Str.lower generic)
  /\ (forall m, In m matches -> ~ In (Str.lower m) standard_keys ->
                In (Str.lower m) (map Str.lower generic))
  /\ firstn (List.length generic) (extract_parties text) = generic.
Proof.
  intros matches generic.
  assert (Hin : forall p, In p generic ->
                  In p matches /\ ~ In (Str.lower p) standard_keys).
  { intros p Hp. apply ExtractorFacts.generic_pass_In in Hp as [[]|Hp].
    exact Hp. }
  split; [exact ExtractorFacts.generic_pass_standard|].
  split; [exact ExtractorFacts.generic_pass_duplicate|].
  split; [intros m _ Hk Hm; now apply Hin in Hm|].
  split; [exact Hin|].
  split; [intros p Hp; apply ReFacts.findall_sound; now apply Hin|].
  split; [apply ExtractorFacts.generic_pass_NoDup; constructor|].
  split.
  - intros m Hm Hk. apply ExtractorFacts.generic_pass_keeps. right. now split.
  - rewrite ExtractorFacts.extract_parties_eq. fold matches. fold generic.
    rewrite firstn_app, firstn_all, Nat.sub_diag. simpl.
    now rewrite app_nil_r.
Qed.

(** C10. No two entries of the list the extractor returns agree once
    lowercased: the generic pass keeps its entries apart and away
    from "person a", "person b" and "person c", and each canonical
    name is appended at most once. *)
Theorem extract_parties_no_case_duplicates (text : string) :
  NoDup (map Str.lower (extract_parties text)).
Proof.
  rewrite ExtractorFacts.extract_parties_eq, map_app.
  apply NoDup_app.
  - apply ExtractorFacts.generic_pass_NoDup. constructor.
  - destruct (Re.search (person_letter "a") text),
             (Re.search (person_letter "b") text),
             (Re.search (person_letter "c") text);
      cbn; repeat constructor; cbn; intuition discriminate.
  - intros x Hx Hcanon.
    apply in_map_iff in Hx as (p & <- & Hp).
    apply ExtractorFacts.generic_pass_In in Hp as [[]|[_ Hk]].
    apply Hk. clear Hk.
    destruct (Re.search (person_letter "a") text),
             (Re.search (person_letter "b") text),
             (Re.search (person_letter "c") text);
      cbn in Hcanon; unfold standard_keys; cbn; intuition.
Qed.

(** ** Explanation engine *)

Module ExplanationFacts.
Import StrFacts.

Lemma prefix_spec a : forall s,
  prefix a s = true <-> exists post, s = a ++ post.
Proof.
  induction a as [|c a IH]; intros s; simpl.
  - destruct s; split; eauto.
  - destruct s as [|d s]; simpl; [split; [discriminate | intros [post [=]]]|].
    destruct (ascii_dec c d) as [Hcd|Hcd].
    + subst d. rewrite IH. split; intros [post H]; exists post;
        [now rewrite H | now injection H].
    + split; [discriminate|]. intros [post [= <- _]]. congruence.
Qed.

Lemma contains_unfold a s :
  Str.contains a s =
  prefix a s || match s with
                | EmptyString => false
                | String _ s' => Str.contains a s'
                end.
Proof. destruct s; reflexivity. Qed.

Lemma contains_spec a s :
  Str.contains a s = true <-> exists pre post, s = pre ++ a ++ post.
Proof.
  split.
  - induction s as [|c s IH]; rewrite contains_unfold, orb_true_iff;
      intros [H|H]; try discriminate.
    + apply prefix_spec in H as [post H]. now exists "", post.
    + apply prefix_spec in H as [post H]. now exists "", post.
    + destruct (IH H) as (pre & post & ->). now exists (String c pre), post.
  - intros (pre & post & ->). induction pre as [|c pre IH].
    + rewrite contains_unfold. apply orb_true_iff. left.
      apply prefix_spec. now exists post.
    + change (String c pre ++ a ++ post) with (String c (pre ++ a ++ post)).
      rewrite contains_unfold, IH. apply orb_true_r.
Qed.

Lemma map_app_inv f s : forall a b,
  Str.map f s = a ++ b ->
  exists a' b', s = a' ++ b' /\ Str.map f a' = a /\ Str.map f b' = b.
Proof.
  induction s as [|c s IH]; intros a b; simpl.
  - destruct a; [|discriminate]. simpl. intros <-. now exists "", "".
  - destruct a as [|d a]; simpl.
    + intros <-. now exists "", (String c s).
    + intros [= <- H]. apply IH in H as (a' & b' & -> & <- & <-).
      now exists (String c a'), b'.
Qed.

(** The test of the source, [phrase in case_text.lower()], finds the
    phrase exactly when the text has it in some case. *)
Lemma contains_lower phrase text :
  Str.contains phrase (Str.lower text) = true
  <-> contains_ignorecase phrase text.
Proof.
  rewrite contains_spec. unfold contains_ignorecase, occurs_in, Str.lower.
  split.
  - intros (pre & post & H).
    apply map_app_inv in H as (pre' & rest & -> & <- & H).
    apply map_app_inv in H as (u & post' & -> & <- & <-).
    now exists pre', u, post'.
  - intros (pre & u & post & -> & <-).
    exists (Str.map Char.lower pre), (Str.map Char.lower post).
    now rewrite !map_app.
Qed.

Lemma not_contains_lower phrase text :
  ~ contains_ignorecase phrase text ->
  Str.contains phrase (Str.lower text) = false.
Proof.
  intros H. apply not_true_is_false. now rewrite contains_lower.
Qed.

End ExplanationFacts.

(** C2. The explanation cascade goes by priority, whatever the
    predicted label: a text that has "self-defense" or "self defense"
    in some case gets the self-defense narrative, also when it has
    "minimum wage", "labor" or "employer"; a text without these two
    that has "minimum wage", "labor" or "employer" in some case gets
    the labor-law narrative.  The two narratives differ. *)
Theorem explanation_cascade_priority (section text : string) :
  (contains_ignorecase "self-defense" text
   \/ contains_ignorecase "self defense" text ->
   get_section_explanation section text = get_self_defense_explanation text)
  /\ (~ contains_ignorecase "self-defense" text ->
      ~ contains_ignorecase "self defense" text ->
      contains_ignorecase "minimum wage" text
      \/ contains_ignorecase "labor" text
      \/ contains_ignorecase "employer" text ->
      get_section_explanation section text = get_labor_law_explanation text)
  /\ get_self_defense_explanation text <> get_labor_law_explanation text
  /\ get_section_explanation section
       "Self-Defense against an employer who paid no minimum wage"
     = get_self_defense_explanation text.
Proof.
  split; [|split; [|split]].
  - intros H. unfold get_section_explanation.
    replace (Str.contains "self-defense" (Str.lower text)
             || Str.contains "self defense" (Str.lower text)) with true;
      [reflexivity|].
    symmetry. apply orb_true_iff.
    destruct H as [H|H]; [left|right]; now apply ExplanationFacts.contains_lower.
  - intros H1 H2 H. unfold get_section_explanation.
    rewrite (ExplanationFacts.not_contains_lower H1),
            (ExplanationFacts.not_contains_lower H2).
    replace (Str.contains "minimum wage" (Str.lower text)
             || Str.contains "labor" (Str.lower text)
             || Str.contains "employer" (Str.lower text)) with true;
      [reflexivity|].
    symmetry. rewrite !orb_true_iff.
    destruct H as [H|[H|H]]; [left; left|left; right|right];
      now apply ExplanationFacts.contains_lower.
  - discriminate.
  - reflexivity.
Qed.

(** C8. A label that is not one of the codes of the static table,
    with a text that has none of the special phrases in any case,
    gets the one-line fallback that names the label as it is. *)
Theorem unmapped_section_fallback (section text : string) :
  ~ In section table_codes ->
  ~ contains_ignorecase "self-defense" text ->
  ~ contains_ignorecase "self defense" text ->
  ~ contains_ignorecase "minimum wage" text ->
  ~ contains_ignorecase "labor" text ->
  ~ contains_ignorecase "employer" text ->
  get_section_explanation section text
  = "Section " ++ section ++ " of the Indian Penal Code".
Proof.
  intros Hcode H1 H2 H3 H4 H5. unfold get_section_explanation.
  rewrite (ExplanationFacts.not_contains_lower H1),
          (ExplanationFacts.not_contains_lower H2),
          (ExplanationFacts.not_contains_lower H3),
          (ExplanationFacts.not_contains_lower H4),
          (ExplanationFacts.not_contains_lower H5).
  cbn [orb].
  repeat match goal with
         | |- context [String.eqb section ?code] =>
             destruct (String.eqb_spec section code) as [Heq|_];
             [exfalso; apply Hcode; rewrite Heq; unfold table_codes;
              cbn [In]; tauto|]
         end.
  reflexivity.
Qed.

Lemma unmapped_section_fallback_witness :
  get_section_explanation "511" "The accused stole a laptop from the office"
  = "Section 511 of the Indian Penal Code".
Proof.
  apply (@unmapped_section_fallback
           "511" "The accused stole a laptop from the office").
  - unfold table_codes. cbn [In]. intuition discriminate.
  - intros H. apply ExplanationFacts.contains_lower in H. discriminate.
  - intros H. apply ExplanationFacts.contains_lower in H. discriminate.
  - intros H. apply ExplanationFacts.contains_lower in H. discriminate.
  - intros H. apply ExplanationFacts.contains_lower in H. discriminate.
  - intros H. apply ExplanationFacts.contains_lower in H. discriminate.
Defined.

(** ** Recommendation engine *)

Module RecommendationFacts.

Lemma Qgtb_lt x y : Qgtb x y = true <-> (y < x)%Q.
Proof.
  unfold Qgtb. rewrite (Qgt_alt x y).
  destruct (x ?= y)%Q; split; congruence.
Qed.

Lemma Qgtb_le x y : Qgtb x y = false <-> (x <= y)%Q.
Proof.
  rewrite <- not_true_iff_false, Qgtb_lt. split.
  - apply Qnot_lt_le.
  - apply Qle_not_lt.
Qed.

Lemma Qgtb_compat x x' y : (x == x')%Q -> Qgtb x y = Qgtb x' y.
Proof.
  intros H. destruct (Qgtb x' y) eqn:H'.
  - apply Qgtb_lt. apply Qgtb_lt in H'. now rewrite H.
  - apply Qgtb_le. apply Qgtb_le in H'. now rewrite H.
Qed.

End RecommendationFacts.


(** ** Analysis orchestrator *)

(** *** Binary64: rounding and order *)

Module Binary64.
Local Open Scope Z_scope.

Lemma digits_bounds p :
  2 ^ (Zpos (digits2_pos p) - 1) <= Zpos p < 2 ^ Zpos (digits2_pos p).
Proof.
  induction p as [p IH|p IH|]; cbn [digits2_pos]; [| |cbn; lia].
  - rewrite Pos2Z.inj_succ.
    replace (Z.succ (Zpos (digits2_pos p)) - 1) with (Z.succ (Zpos (digits2_pos p) - 1)) by lia.
    rewrite !Z.pow_succ_r by lia. lia.
  - rewrite Pos2Z.inj_succ.
    replace (Z.succ (Zpos (digits2_pos p)) - 1) with (Z.succ (Zpos (digits2_pos p) - 1)) by lia.
    rewrite !Z.pow_succ_r by lia. lia.
Qed.

Lemma Zdigits2_le m n :
  0 <= m < 2 ^ n -> 0 <= n -> Zdigits2 m <= n.
Proof.
  intros [H0 Hm] Hn. destruct m as [|p|p]; [exact Hn| |lia].
  cbn [Zdigits2]. pose proof (@digits_bounds p) as [Hlo _].
  destruct (Z_le_gt_dec (Zpos (digits2_pos p)) n) as [|Hgt]; [assumption|].
  exfalso. assert (2 ^ n <= 2 ^ (Zpos (digits2_pos p) - 1))
    by (apply Z.pow_le_mono_r; lia). lia.
Qed.

Lemma iter_pos_nat {A} (f : A -> A) p : forall x,
  iter_pos f p x = Nat.iter (Pos.to_nat p) f x.
Proof.
  induction p as [p IH|p IH|]; intros x; cbn [iter_pos].
  - rewrite !IH, Pos2Nat.inj_xI.
    replace (S (2 * Pos.to_nat p))%nat with (S (Pos.to_nat p + Pos.to_nat p))%nat by lia.
    now rewrite Nat.iter_succ_r, Nat.iter_add.
  - rewrite !IH, Pos2Nat.inj_xO.
    replace (2 * Pos.to_nat p)%nat with (Pos.to_nat p + Pos.to_nat p)%nat by lia.
    now rewrite Nat.iter_add.
  - reflexivity.
Qed.

Lemma shr_1_spec m r s :
  0 <= m ->
  shr_1 (Build_shr_record m r s) = Build_shr_record (m / 2) (Z.odd m) (r || s).
Proof.
  intros Hm. destruct m as [|[p|p|]|p]; try lia; cbn [shr_1];
    try reflexivity; f_equal.
  - rewrite Pos2Z.inj_xI.
    apply Z.div_unique with (r := 1); lia.
  - rewrite Pos2Z.inj_xO.
    apply Z.div_unique with (r := 0); lia.
Qed.

Lemma shr_iter m (j : nat) :
  0 <= m ->
  let mrs := Nat.iter j shr_1 (Build_shr_record m false false) in
  shr_m mrs = m / 2 ^ Z.of_nat j
  /\ (m mod 2 ^ Z.of_nat j = 0 -> shr_r mrs = false /\ shr_s mrs = false).
Proof.
  intros Hm. induction j as [|j [IHm IHx]]; cbn zeta.
  - cbn. rewrite Z.div_1_r. auto.
  - rewrite Nat.iter_succ. cbn zeta in IHm, IHx.
    destruct (Nat.iter j shr_1 (Build_shr_record m false false)) as [mj rj sj].
    cbn [shr_m shr_r shr_s] in *.
    assert (Hj : 0 < 2 ^ Z.of_nat j) by (apply Z.pow_pos_nonneg; lia).
    assert (Hmj : 0 <= mj) by (subst mj; apply Z.div_pos; lia).
    rewrite shr_1_spec by assumption. cbn [shr_m shr_r shr_s].
    rewrite Nat2Z.inj_succ, Z.pow_succ_r by lia.
    split.
    + subst mj. rewrite Z.div_div by lia. f_equal. lia.
    + intros Hmod.
      assert (Hdiv : (2 * 2 ^ Z.of_nat j | m)) by (apply Z.mod_divide; [lia | assumption]).
      destruct Hdiv as [q Hq].
      assert (Hmodj : m mod 2 ^ Z.of_nat j = 0).
      { rewrite Hq. replace (q * (2 * 2 ^ Z.of_nat j)) with ((q * 2) * 2 ^ Z.of_nat j) by lia.
        apply Z.mod_mul. lia. }
      destruct (IHx Hmodj) as [-> ->]. split; [|reflexivity].
      subst mj. rewrite Hq.
      replace (q * (2 * 2 ^ Z.of_nat j)) with ((q * 2) * 2 ^ Z.of_nat j) by lia.
      rewrite Z.div_mul by lia. rewrite Z.mul_comm, Z.odd_mul. reflexivity.
Qed.

Lemma round_nearest_even_bounds mx lx :
  mx <= round_nearest_even mx lx <= mx + 1.
Proof.
  destruct lx as [|[]]; cbn [round_nearest_even]; try lia.
  destruct (Z.even mx); lia.
Qed.

Lemma fexp_eq z : fexp prec emax z = Z.max (z - 53) (-1074).
Proof. reflexivity. Qed.

(** Shifting a mantissa to the exponent of the format and rounding it
    to nearest keeps it below a bound that is on the grid. *)
Lemma shr_fexp_round_le m e M eM :
  0 <= m -> e <= eM -> -1074 <= eM -> 0 < M < 2 ^ 53 ->
  m <= M * 2 ^ (eM - e) ->
  exists mrs e',
    shr_fexp prec emax m e loc_Exact = (mrs, e')
    /\ e <= e' <= eM
    /\ 0 <= shr_m mrs
    /\ shr_m mrs <= round_nearest_even (shr_m mrs) (loc_of_shr_record mrs)
       <= M * 2 ^ (eM - e').
Proof.
  intros Hm He HeM HM Hle.
  unfold shr_fexp, shr. rewrite fexp_eq. cbn [shr_record_of_loc].
  assert (Hpow : 0 < 2 ^ (eM - e)) by (apply Z.pow_pos_nonneg; lia).
  assert (HD : Zdigits2 m <= 53 + (eM - e)).
  { apply Zdigits2_le; [|lia]. split; [assumption|].
    rewrite Z.pow_add_r by lia. nia. }
  destruct (Z.max (Zdigits2 m + e - 53) (-1074) - e) as [|p|p] eqn:Hk.
  - eexists _, _. split; [reflexivity|]. cbn. repeat split; lia.
  - set (k := Zpos p) in *.
    rewrite iter_pos_nat.
    destruct (@shr_iter m (Pos.to_nat p) Hm) as [Hshr Hex].
    rewrite positive_nat_Z in Hshr, Hex. fold k in Hshr, Hex.
    eexists _, _. split; [reflexivity|].
    set (mrs := Nat.iter (Pos.to_nat p) shr_1 _) in *.
    assert (Hk0 : 0 < k) by (unfold k; lia).
    assert (H2k : 0 < 2 ^ k) by (apply Z.pow_pos_nonneg; lia).
    assert (Hsplit : 2 ^ (eM - e) = 2 ^ (eM - (e + k)) * 2 ^ k).
    { rewrite <- Z.pow_add_r by lia. f_equal. lia. }
    assert (HB : 0 < 2 ^ (eM - (e + k))) by (apply Z.pow_pos_nonneg; lia).
    split; [lia|]. split; [rewrite Hshr; apply Z.div_pos; lia|].
    pose proof (@round_nearest_even_bounds (shr_m mrs) (loc_of_shr_record mrs))
      as [Hlo Hhi].
    split; [exact Hlo|].
    rewrite Hsplit in Hle.
    destruct (Z.eq_dec m (M * 2 ^ (eM - (e + k)) * 2 ^ k)) as [Heq|Hneq].
    + assert (Hmod : m mod 2 ^ k = 0) by (rewrite Heq; apply Z.mod_mul; lia).
      destruct (Hex Hmod) as [Hr Hs].
      destruct mrs as [m1 r1 s1]. cbn [shr_m shr_r shr_s] in *. subst r1 s1.
      cbn [loc_of_shr_record round_nearest_even].
      rewrite Hshr, Heq, Z.div_mul by lia. lia.
    + assert (Hlt : shr_m mrs < M * 2 ^ (eM - (e + k))).
      { rewrite Hshr. apply Z.div_lt_upper_bound; [lia|]. nia. }
      lia.
  - eexists _, _. split; [reflexivity|]. cbn. repeat split; lia.
Qed.

Lemma compare_cont_le (m M : positive) :
  (Zpos m <= Zpos M) ->
  Pos.compare_cont Eq m M = Lt \/ Pos.compare_cont Eq m M = Eq.
Proof.
  intros H. change (Pos.compare_cont Eq m M) with (Pos.compare m M).
  destruct (Pos.compare_spec m M); auto. lia.
Qed.

Lemma compare_cont_le_inv (m M : positive) :
  Pos.compare_cont Eq m M <> Gt -> Zpos m <= Zpos M.
Proof.
  change (Pos.compare_cont Eq m M) with (Pos.compare m M).
  destruct (Pos.compare_spec m M); intros Hc; try lia. congruence.
Qed.

(** Rounding a value that is at most a float of the format gives at
    most that float, and nothing negative. *)
Lemma binary_round_aux_le (P : positive) (E : Z) (M : positive) (eM : Z) :
  E <= eM -> -1074 <= eM <= 971 -> Zpos M < 2 ^ 53 ->
  Zpos P <= Zpos M * 2 ^ (eM - E) ->
  let r := binary_round_aux prec emax false (Zpos P) E loc_Exact in
  SFleb (S754_zero false) r = true /\ SFleb r (S754_finite false M eM) = true.
Proof.
  intros HE HeM HM Hle. cbn zeta. unfold binary_round_aux.
  destruct (@shr_fexp_round_le (Zpos P) E (Zpos M) eM)
    as (mrs1 & e1 & -> & He1 & Hm1 & Hlo1 & Hhi1); try lia.
  set (m2 := round_nearest_even (shr_m mrs1) (loc_of_shr_record mrs1)) in *.
  destruct (@shr_fexp_round_le m2 e1 (Zpos M) eM)
    as (mrs2 & e2 & -> & He2 & Hm2 & Hlo2 & Hhi2); try lia.
  destruct (shr_m mrs2) as [|m|m] eqn:Hm; [split; reflexivity| |lia].
  replace (e2 <=? emax - prec) with true
    by (symmetry; apply Z.leb_le; change (emax - prec) with 971; lia).
  split; [reflexivity|].
  unfold SFleb, SFcompare.
  destruct (Z.compare_spec e2 eM) as [Heq|Hlt|Hgt]; [|reflexivity|lia].
  subst e2. rewrite Z.sub_diag in Hhi2. cbn [Z.pow] in Hhi2.
  destruct (@compare_cont_le m M) as [-> | ->]; [lia | reflexivity | reflexivity].
Qed.

Lemma valid_digits s m e :
  valid_binary (S754_finite s m e) = true ->
  Zpos m < 2 ^ 53 /\ -1074 <= e <= 971
  /\ (e = -1074 \/ 2 ^ 52 <= Zpos m).
Proof.
  unfold SpecFloat.valid_binary, bounded, canonical_mantissa.
  rewrite andb_true_iff, Z.eqb_eq, Z.leb_le, fexp_eq.
  change (emax - prec) with 971. intros [Hc He].
  pose proof (@digits_bounds m) as [Hlo Hhi].
  set (d := Zpos (digits2_pos m)) in *.
  assert (Hd : d <= 53) by lia.
  split.
  - eapply Z.lt_le_trans; [exact Hhi|]. apply Z.pow_le_mono_r; lia.
  - split; [lia|]. destruct (Z.eq_dec e (-1074)) as [|Hne]; [now left|right].
    assert (d = 53) by lia. replace 52 with (d - 1) by lia. exact Hlo.
Qed.

(** The product of a float between 0 and 1 with a positive float of
    the format lies between 0 and that float. *)
Lemma SFmul_le_one x (M : positive) (eM : Z) :
  valid_binary x = true ->
  -1074 <= eM <= 971 -> Zpos M < 2 ^ 53 ->
  SFleb (S754_zero false) x = true ->
  SFleb x sf_one = true ->
  let r := SFmul prec emax x (S754_finite false M eM) in
  SFleb (S754_zero false) r = true /\ SFleb r (S754_finite false M eM) = true.
Proof.
  intros Hvalid HeM HM H0 H1. cbn zeta.
  destruct x as [s|s| |s m e]; try discriminate.
  - destruct s; split; reflexivity.
  - destruct s; discriminate.
  - destruct s; [discriminate|].
    apply valid_digits in Hvalid as (Hm & He & _).
    cbn [SFmul xorb].
    assert (Hle : e <= 0 /\ Zpos m <= 2 ^ (- e)).
    { unfold SFleb, SFcompare, sf_one in H1.
      destruct (Z.compare_spec e (-52)) as [->|Hlt|Hgt]; [| |discriminate].
      - split; [lia|]. change (2 ^ (- -52)) with (Zpos 4503599627370496).
        apply compare_cont_le_inv. intros Hgt. rewrite Hgt in H1. discriminate H1.
      - split; [lia|]. apply Z.lt_le_incl.
        eapply Z.lt_le_trans; [exact Hm|]. apply Z.pow_le_mono_r; lia. }
    destruct Hle as [He0 Hme].
    apply binary_round_aux_le; try lia.
    rewrite Pos2Z.inj_mul.
    replace (eM - (e + eM)) with (- e) by lia. nia.
Qed.

(** *** The order of the format through an integer key *)

Lemma beyond_eq : beyond = 2 ^ 53 * 2 ^ 2047.
Proof. reflexivity. Qed.

Lemma finite_key_bounds s m e :
  valid_binary (S754_finite s m e) = true ->
  0 < Zpos m * 2 ^ (e + 1074) < beyond.
Proof.
  intros H. apply valid_digits in H as (Hm & He & _).
  assert (Hp : 0 < 2 ^ (e + 1074)) by (apply Z.pow_pos_nonneg; lia).
  assert (Hq : 2 ^ (e + 1074) <= 2 ^ 2047) by (apply Z.pow_le_mono_r; lia).
  rewrite beyond_eq. split; [lia|].
  apply Z.lt_le_trans with (2 ^ 53 * 2 ^ (e + 1074)).
  - apply Z.mul_lt_mono_pos_r; assumption.
  - apply Z.mul_le_mono_nonneg_l; [|assumption]. apply Z.pow_nonneg. lia.
Qed.

Lemma finite_key_mono s1 m1 e1 s2 m2 e2 :
  valid_binary (S754_finite s1 m1 e1) = true ->
  valid_binary (S754_finite s2 m2 e2) = true ->
  e1 < e2 ->
  Zpos m1 * 2 ^ (e1 + 1074) < Zpos m2 * 2 ^ (e2 + 1074).
Proof.
  intros H1 H2 Hlt.
  apply valid_digits in H1 as (Hm1 & He1 & _).
  apply valid_digits in H2 as (_ & He2 & [Hsub|Hm2]); [lia|].
  set (p := 2 ^ (e1 + 1074)).
  assert (Hp : 0 < p) by (apply Z.pow_pos_nonneg; lia).
  assert (Hsplit : 2 ^ (e2 + 1074) = 2 ^ (e2 - e1) * p).
  { unfold p. rewrite <- Z.pow_add_r by lia. f_equal. lia. }
  assert (Hq : 2 ^ 1 <= 2 ^ (e2 - e1)) by (apply Z.pow_le_mono_r; lia).
  change (2 ^ 1) with 2 in Hq. rewrite Hsplit.
  set (q := 2 ^ (e2 - e1)) in *.
  change (2 ^ 53) with (2 * 2 ^ 52) in Hm1.
  set (h := 2 ^ 52) in *.
  assert (Hh : 0 < h) by (unfold h; apply Z.pow_pos_nonneg; lia).
  apply Z.lt_le_trans with (2 * h * p).
  - apply Z.mul_lt_mono_pos_r; assumption.
  - rewrite Z.mul_assoc. apply Z.mul_le_mono_nonneg_r; [lia|].
    rewrite (Z.mul_comm 2 h).
    apply Z.mul_le_mono_nonneg; lia.
Qed.

Lemma compare_cont_Z (m1 m2 : positive) :
  Pos.compare_cont Eq m1 m2 = (Zpos m1 ?= Zpos m2).
Proof. reflexivity. Qed.

(** On valid floats that are not NaN the comparison of the format is
    the comparison of the keys. *)
Lemma SFcompare_key x y :
  valid_binary x = true -> valid_binary y = true ->
  x <> S754_nan -> y <> S754_nan ->
  SFcompare x y = Some (key x ?= key y).
Proof.
  intros Hx Hy Nx Ny.
  assert (Hb : 0 < beyond) by reflexivity.
  destruct x as [sx|sx| |sx mx ex]; [| |congruence|];
    (destruct y as [sy|sy| |sy my ey]; [| |congruence|]);
    cbn [SFcompare key];
    try (pose proof (@finite_key_bounds _ _ _ Hx) as [Hx0 Hx1]);
    try (pose proof (@finite_key_bounds _ _ _ Hy) as [Hy0 Hy1]).
  1-8: (try destruct sx; try destruct sy; cbn [cond_Zopp]; f_equal;
        match goal with
        | |- ?c = (?a ?= ?b) =>
            destruct (Z.compare_spec a b);
            first [reflexivity | exfalso; lia]
        end).
  rewrite compare_cont_Z.
  destruct sx, sy; cbn [cond_Zopp]; f_equal;
    try (match goal with
         | |- ?c = (?a ?= ?b) =>
             destruct (Z.compare_spec a b);
             first [reflexivity | exfalso; lia]
         end);
    destruct (Z.compare_spec ex ey) as [->|Hlt|Hgt];
    try (pose proof (@finite_key_mono _ _ _ _ _ _ Hx Hy Hlt));
    try (pose proof (@finite_key_mono _ _ _ _ _ _ Hy Hx Hgt));
    try (match goal with
         | |- ?c = (?a ?= ?b) =>
             destruct (Z.compare_spec a b);
             first [reflexivity | exfalso; lia]
         end).
  - set (p := 2 ^ (ey + 1074)) in *.
    destruct (Z.compare_spec (Zpos mx) (Zpos my)) as [Heq|Hl|Hg];
      cbn [CompOpp];
      match goal with
      | |- ?c = (?a ?= ?b) =>
          destruct (Z.compare_spec a b); first [reflexivity | exfalso; nia]
      end.
  - set (p := 2 ^ (ey + 1074)) in *.
    destruct (Z.compare_spec (Zpos mx) (Zpos my)) as [Heq|Hl|Hg];
      match goal with
      | |- ?c = (?a ?= ?b) =>
          destruct (Z.compare_spec a b); first [reflexivity | exfalso; nia]
      end.
Qed.

End Binary64.

(** *** The primitive floats *)

Module Float64.
Import Binary64.
Local Open Scope Z_scope.

Lemma leb_not_nan x y :
  (x <=? y)%float = true ->
  Prim2SF x <> S754_nan /\ Prim2SF y <> S754_nan.
Proof.
  rewrite leb_spec. unfold SFleb, SFcompare.
  destruct (Prim2SF x), (Prim2SF y); try discriminate; split; discriminate.
Qed.

Lemma leb_key x y :
  Prim2SF x <> S754_nan -> Prim2SF y <> S754_nan ->
  (x <=? y)%float = (key (Prim2SF x) <=? key (Prim2SF y)).
Proof.
  intros Nx Ny. rewrite leb_spec. unfold SFleb.
  rewrite (@SFcompare_key _ _ (Prim2SF_valid x) (Prim2SF_valid y) Nx Ny).
  unfold Z.leb. now destruct (key (Prim2SF x) ?= key (Prim2SF y)).
Qed.

Lemma ltb_key x y :
  Prim2SF x <> S754_nan -> Prim2SF y <> S754_nan ->
  (x <? y)%float = (key (Prim2SF x) <? key (Prim2SF y)).
Proof.
  intros Nx Ny. rewrite ltb_spec. unfold SFltb.
  rewrite (@SFcompare_key _ _ (Prim2SF_valid x) (Prim2SF_valid y) Nx Ny).
  unfold Z.ltb. now destruct (key (Prim2SF x) ?= key (Prim2SF y)).
Qed.

Lemma leb_trans x y z :
  (x <=? y)%float = true -> (y <=? z)%float = true -> (x <=? z)%float = true.
Proof.
  intros Hxy Hyz.
  destruct (@leb_not_nan _ _ Hxy) as [Nx Ny].
  destruct (@leb_not_nan _ _ Hyz) as [_ Nz].
  rewrite leb_key in * by assumption. apply Z.leb_le.
  apply Z.leb_le in Hxy, Hyz. lia.
Qed.

Lemma leb_refl x : Prim2SF x <> S754_nan -> (x <=? x)%float = true.
Proof. intros N. rewrite leb_key by assumption. apply Z.leb_refl. Qed.

Lemma leb_false x y :
  Prim2SF x <> S754_nan -> Prim2SF y <> S754_nan ->
  (x <=? y)%float = false -> (y <=? x)%float = true.
Proof.
  intros Nx Ny. rewrite !leb_key by assumption.
  rewrite Z.leb_gt, Z.leb_le. lia.
Qed.

Lemma key_100 : Prim2SF 100 = S754_finite false 7036874417766400 (-46).
Proof. reflexivity. Qed.

Lemma key_1 : Prim2SF 1 = sf_one.
Proof. reflexivity. Qed.

Lemma key_0 : Prim2SF 0 = S754_zero false.
Proof. reflexivity. Qed.

(** A float between 0 and 1 times 100 is a float between 0 and 100. *)
Lemma percent_bounds x :
  (0 <=? x)%float = true -> (x <=? 1)%float = true ->
  (0 <=? x * 100)%float = true /\ (x * 100 <=? 100)%float = true.
Proof.
  rewrite !leb_spec, mul_spec, key_0, key_1, key_100. intros H0 H1.
  apply SFmul_le_one; try assumption.
  - apply Prim2SF_valid.
  - lia.
  - reflexivity.
Qed.

Lemma SFleb_antisym_finite sx mx ex s m e :
  SFleb (S754_finite sx mx ex) (S754_finite s m e) = true ->
  SFleb (S754_finite s m e) (S754_finite sx mx ex) = true ->
  S754_finite sx mx ex = S754_finite s m e.
Proof.
  unfold SFleb, SFcompare. rewrite !compare_cont_Z.
  destruct sx, s;
    destruct (Z.compare_spec ex e), (Z.compare_spec e ex),
             (Z.compare_spec (Zpos mx) (Zpos m)),
             (Z.compare_spec (Zpos m) (Zpos mx));
    cbn [CompOpp]; intros Ha Hb; try discriminate; try lia;
    subst; f_equal; congruence.
Qed.

(** Two floats that are at most each other are the same float, when
    one of them is finite and not zero. *)
Lemma leb_antisym x y :
  finite_nonzero y ->
  (x <=? y)%float = true -> (y <=? x)%float = true -> x = y.
Proof.
  unfold finite_nonzero. rewrite !leb_spec. intros Hfin Hxy Hyx.
  apply Prim2SF_inj.
  destruct (Prim2SF y) as [| | |s m e]; try contradiction.
  destruct (Prim2SF x) as [sx|sx| |sx mx ex].
  - destruct sx, s; discriminate.
  - destruct sx, s; discriminate.
  - discriminate.
  - now apply SFleb_antisym_finite.
Qed.

End Float64.

(** *** The maximum of a row and exact values *)

Module MaximumFacts.
Import Float64.

Lemma is_nan_false x : is_number x -> is_nan x = false.
Proof.
  intros N. unfold is_nan. rewrite eqb_spec. unfold SFeqb.
  rewrite (@Binary64.SFcompare_key _ _ (Prim2SF_valid x) (Prim2SF_valid x) N N).
  now rewrite Z.compare_refl.
Qed.

Lemma larger_cases m y :
  is_number m -> is_number y ->
  (larger m y = m \/ larger m y = y)
  /\ (m <=? larger m y)%float = true /\ (y <=? larger m y)%float = true.
Proof.
  intros Nm Ny. unfold larger. rewrite (@is_nan_false m Nm), orb_false_r.
  destruct (y <=? m)%float eqn:H.
  - split; [now left|]. split; [now apply (@leb_refl m) | exact H].
  - split; [now right|]. split; [now apply (@leb_false y m) | now apply (@leb_refl y)].
Qed.

Lemma fold_larger xs : forall a,
  is_number a -> Forall is_number xs ->
  is_number (fold_left larger xs a)
  /\ In (fold_left larger xs a) (a :: xs)
  /\ forall x, In x (a :: xs) -> (x <=? fold_left larger xs a)%float = true.
Proof.
  induction xs as [|y xs IH]; intros a Na Nxs.
  - cbn. split; [exact Na|]. split; [now left|].
    intros x [<-|[]]. now apply (@leb_refl a).
  - inversion Nxs as [|? ? Ny Nxs']; subst. cbn [fold_left].
    destruct (@larger_cases a y Na Ny) as (Hcase & Hla & Hly).
    assert (Nl : is_number (larger a y)) by (destruct Hcase as [->| ->]; assumption).
    destruct (IH (larger a y) Nl Nxs') as (Nr & Hin & Hle).
    split; [exact Nr|]. split.
    + destruct Hin as [Hin|Hin]; [|right; right; exact Hin].
      destruct Hcase as [Ha|Hy]; [left | right; left]; congruence.
    + intros x [<-|[<-|Hx]].
      * apply (@leb_trans a (larger a y) _ Hla). apply Hle. now left.
      * apply (@leb_trans y (larger a y) _ Hly). apply Hle. now left.
      * apply Hle. now right.
Qed.

(** [np.max] of a row that is not empty and has no NaN is its maximum
    entry. *)
Lemma np_max_spec xs :
  xs <> [] -> Forall is_number xs ->
  exists m, np_max xs = Ok m /\ maximum_of xs m.
Proof.
  destruct xs as [|x xs]; [congruence|]. intros _ N.
  inversion N as [|? ? Nx Nxs]; subst.
  exists (fold_left larger xs x). split; [reflexivity|].
  destruct (@fold_larger xs x Nx Nxs) as (_ & Hin & Hle).
  split; [exact Hin|]. now apply Forall_forall.
Qed.

Lemma probability_is_number x : probability x -> is_number x.
Proof. intros [H0 _]. exact (proj2 (@leb_not_nan 0 x H0)). Qed.

Lemma distribution_numbers xs : distribution xs -> Forall is_number xs.
Proof.
  intros [_ H]. eapply Forall_impl; [|exact H]. exact probability_is_number.
Qed.

Lemma below_is_number x m : (x <=? m)%float = true -> is_number x.
Proof. intros H. exact (proj1 (@leb_not_nan x m H)). Qed.

(** The maximum entry of a distribution is a probability. *)
Lemma maximum_of_distribution xs m :
  distribution xs -> maximum_of xs m -> probability m.
Proof.
  intros [_ H] [Hin _]. rewrite Forall_forall in H. now apply H.
Qed.

(** The maximum entry is one float, when it is finite and not zero. *)
Lemma maximum_of_unique xs a b :
  finite_nonzero b -> maximum_of xs a -> maximum_of xs b -> a = b.
Proof.
  intros Hb [Ha Hla] [Hin Hlb]. rewrite Forall_forall in Hla, Hlb.
  apply (@leb_antisym a b Hb); [now apply Hlb | now apply Hla].
Qed.

(** *** Exact values *)

Lemma key_of_0 : key (Prim2SF 0) = 0%Z.
Proof. reflexivity. Qed.

Lemma key_of_1 : key (Prim2SF 1) = Zpos (2 ^ 1074).
Proof. vm_compute. reflexivity. Qed.

Lemma key_of_80 : key (Prim2SF 80) = (80 * Zpos (2 ^ 1074))%Z.
Proof. vm_compute. reflexivity. Qed.

Lemma key_of_60 : key (Prim2SF 60) = (60 * Zpos (2 ^ 1074))%Z.
Proof. vm_compute. reflexivity. Qed.

Lemma exact_nonneg x : (0 <=? x)%float = true -> (0 <= exact x)%Q.
Proof.
  intros H. destruct (@leb_not_nan 0 x H) as [N0 Nx].
  rewrite (@leb_key 0 x N0 Nx), key_of_0 in H. apply Z.leb_le in H.
  unfold Qle, exact. cbn [Qnum Qden]. lia.
Qed.

Lemma exact_le_1 x :
  is_number x -> (exact x <= 1)%Q -> (x <=? 1)%float = true.
Proof.
  intros Nx H.
  assert (N1 : is_number 1) by (unfold is_number; discriminate).
  rewrite (@leb_key x 1 Nx N1), key_of_1. apply Z.leb_le.
  unfold Qle, exact in H. cbn [Qnum Qden] in H. lia.
Qed.

Lemma total_nonneg xs :
  Forall (fun x => (0 <=? x)%float = true) xs -> (0 <= total xs)%Q.
Proof.
  induction 1 as [|x xs Hx _ IH]; cbn [total fold_right]; [lra|].
  apply exact_nonneg in Hx. fold (total xs). lra.
Qed.

Lemma entry_le_total xs m :
  Forall (fun x => (0 <=? x)%float = true) xs -> In m xs ->
  (exact m <= total xs)%Q.
Proof.
  induction 1 as [|x xs Hx Hxs IH]; intros Hm; [destruct Hm|].
  pose proof (@total_nonneg xs Hxs). cbn [total fold_right]. fold (total xs).
  destruct Hm as [->|Hm].
  - lra.
  - specialize (IH Hm). apply exact_nonneg in Hx. lra.
Qed.

(** Floats that are not negative and sum to 1 exactly are
    probabilities. *)
Lemma sums_to_one_distribution xs : sums_to_one xs -> distribution xs.
Proof.
  intros (Hne & Hpos & Hsum). split; [exact Hne|].
  apply Forall_forall. intros x Hx. split.
  - rewrite Forall_forall in Hpos. now apply Hpos.
  - apply exact_le_1.
    + rewrite Forall_forall in Hpos.
      exact (proj2 (@leb_not_nan 0 x (Hpos x Hx))).
    + rewrite <- Hsum. now apply entry_le_total.
Qed.

(** The comparison of a float with an integer that is a float is the
    comparison of its exact value with that integer. *)
Lemma ltb_exact (k c : float) (n : Z) :
  is_number k -> (0 <= n)%Z -> key (Prim2SF k) = (n * Zpos (2 ^ 1074))%Z ->
  (k <? c)%float = Qgtb (exact c) (inject_Z n).
Proof.
  intros Nk Hn Hk. unfold Qgtb, Qcompare, exact, inject_Z.
  cbn [Qnum Qden]. rewrite Z.mul_1_r.
  destruct (Prim2SF c) as [s|s| |s m e] eqn:Hc.
  1,2,4: (assert (Nc : is_number c) by (unfold is_number; rewrite Hc; discriminate);
          rewrite (@ltb_key k c Nk Nc), Hk, Hc; unfold Z.ltb;
          rewrite (Z.compare_antisym (n * Zpos (2 ^ 1074)));
          now destruct (n * Zpos (2 ^ 1074) ?= _)%Z).
  rewrite ltb_spec, Hc. cbn [key].
  replace (SFltb (Prim2SF k) S754_nan) with false
    by (unfold SFltb, SFcompare; now destruct (Prim2SF k)).
  destruct (Z.compare_spec 0 (n * Zpos (2 ^ 1074))); try reflexivity. lia.
Qed.

(** On every float the function of the program is the function on
    the exact value. *)
Lemma get_recommendations_float_exact c :
  get_recommendations_float c = get_recommendations (exact c).
Proof.
  unfold get_recommendations_float, get_recommendations.
  rewrite (@ltb_exact 80%float c 80%Z), (@ltb_exact 60%float c 60%Z);
    first [reflexivity | exact key_of_80 | exact key_of_60 | lia
          | unfold is_number; discriminate].
Qed.

End MaximumFacts.

Section OrchestratorFacts.

Variables FeatureVector Config : Type.
Implicit Types (files : model_files FeatureVector Config) (text : string).

(** The record of a successful run, field by field. *)
Lemma analyze_try_success files text prediction probabilities section :
  classifies files text prediction probabilities section ->
  analyze_try files text =
  (peak <- np_max probabilities ;;
   Ok [ ("case_text", VStr text);
        ("predicted_section", VStr section);
        ("confidence", VFloat (peak * 100)%float);
        ("parties", VList (extract_parties text));
        ("explanation", VStr (get_section_explanation section text));
        ("recommendations",
          VStr (get_recommendations_float (peak * 100)%float)) ]).
Proof.
  intros (clf & vec & enc & cfg & v & ps & pps & ss &
          H1 & H2 & H3 & H4 & H5 & H6 & H7 & H8).
  unfold analyze_try. rewrite H1, H2, H3, H4. cbn [bind].
  rewrite H5. cbn [bind]. rewrite H6. cbn [bind item0].
  rewrite H7. cbn [bind item0]. rewrite H8. reflexivity.
Qed.

(** The [try] block, with the artifacts loaded in one step and each
    call taken with its indexing. *)
Lemma analyze_try_steps files text :
  analyze_try files text =
  (a <- loaded files ;;
   let '(clf, vec, enc, cfg) := a in
   v <- transform vec [preprocess_text text] ;;
   prediction <- bind (predict clf v) item0 ;;
   probabilities <- bind (predict_proba clf v) item0 ;;
   section <- bind (inverse_transform enc [prediction]) item0 ;;
   peak <- np_max probabilities ;;
   Ok [ ("case_text", VStr text);
        ("predicted_section", VStr section);
        ("confidence", VFloat (peak * 100)%float);
        ("parties", VList (extract_parties text));
        ("explanation", VStr (get_section_explanation section text));
        ("recommendations",
          VStr (get_recommendations_float (peak * 100)%float)) ]).
Proof.
  unfold analyze_try, loaded.
  destruct (rf_classifier_pkl files) as [clf|]; [|reflexivity].
  destruct (tfidf_vectorizer_pkl files) as [vec|]; [|reflexivity].
  destruct (label_encoder_pkl files) as [enc|]; [|reflexivity].
  destruct (model_config_json files) as [cfg|]; [|reflexivity].
  cbn [bind].
  destruct (transform vec [preprocess_text text]) as [v|]; [|reflexivity].
  cbn [bind].
  destruct (predict clf v) as [ps|]; [|reflexivity]. cbn [bind].
  destruct (item0 ps) as [prediction|]; [|reflexivity]. cbn [bind].
  destruct (predict_proba clf v) as [pps|]; [|reflexivity]. cbn [bind].
  destruct (item0 pps) as [probabilities|]; [|reflexivity]. cbn [bind].
  destruct (inverse_transform enc [prediction]) as [ss|]; [|reflexivity].
  reflexivity.
Qed.

(** The [try] block raises exactly when one of its steps fails. *)
Lemma analyze_try_fails files text e :
  analyze_try files text = Err e <-> step_fails files text e.
Proof.
  rewrite analyze_try_steps. split.
  - destruct (loaded files) as [[[[clf vec] enc] cfg]|e0] eqn:Hl; cbn [bind];
      [|intros [= ->]; now apply fails_loading].
    destruct (transform vec [preprocess_text text]) as [v|e0] eqn:Hv;
      cbn [bind]; [|intros [= ->]; eapply fails_vectorizing; eassumption].
    destruct (bind (predict clf v) item0) as [prediction|e0] eqn:Hp;
      cbn [bind]; [|intros [= ->]; eapply fails_predicting; eassumption].
    destruct (bind (predict_proba clf v) item0) as [probabilities|e0] eqn:Hpp;
      cbn [bind]; [|intros [= ->]; eapply fails_predicting_proba; eassumption].
    destruct (bind (inverse_transform enc [prediction]) item0)
      as [section|e0] eqn:Hs;
      cbn [bind]; [|intros [= ->]; eapply fails_decoding; eassumption].
    destruct (np_max probabilities) as [peak|e0] eqn:Hm;
      cbn [bind]; [discriminate|].
    intros [= ->]. eapply fails_taking_maximum; eassumption.
  - intros H.
    destruct H as [e H
                  |clf vec enc cfg e Hl H
                  |clf vec enc cfg v e Hl Hv H
                  |clf vec enc cfg v prediction e Hl Hv Hp H
                  |clf vec enc cfg v prediction probabilities e Hl Hv Hp Hpp H
                  |clf vec enc cfg v prediction probabilities section e
                     Hl Hv Hp Hpp Hs H].
    + now rewrite H.
    + rewrite Hl. cbn [bind]. now rewrite H.
    + rewrite Hl. cbn [bind]. rewrite Hv. cbn [bind]. now rewrite H.
    + rewrite Hl. cbn [bind]. rewrite Hv. cbn [bind]. rewrite Hp. cbn [bind].
      now rewrite H.
    + rewrite Hl. cbn [bind]. rewrite Hv. cbn [bind]. rewrite Hp. cbn [bind].
      rewrite Hpp. cbn [bind]. now rewrite H.
    + rewrite Hl. cbn [bind]. rewrite Hv. cbn [bind]. rewrite Hp. cbn [bind].
      rewrite Hpp. cbn [bind]. rewrite Hs. cbn [bind]. now rewrite H.
Qed.

(** The only records a run builds. *)
Lemma analyze_case_shape files text :
  (exists section confidence,
      analyze_case files text =
      [ ("case_text", VStr text);
        ("predicted_section", VStr section);
        ("confidence", VFloat confidence);
        ("parties", VList (extract_parties text));
        ("explanation", VStr (get_section_explanation section text));
        ("recommendations", VStr (get_recommendations_float confidence)) ])
  \/ (exists e,
         step_fails files text e
         /\ analyze_case files text =
            [ ("case_text", VStr text);
              ("error", VStr e);
              ("message", VStr error_message) ]).
Proof.
  unfold analyze_case.
  destruct (analyze_try files text) as [r|e] eqn:H.
  - left. rewrite analyze_try_steps in H.
    destruct (loaded files) as [[[[clf vec] enc] cfg]|]; [|discriminate].
    cbn [bind] in H.
    destruct (transform vec [preprocess_text text]) as [v|]; [|discriminate].
    cbn [bind] in H.
    destruct (bind (predict clf v) item0) as [prediction|]; [|discriminate].
    cbn [bind] in H.
    destruct (bind (predict_proba clf v) item0) as [probabilities|];
      [|discriminate].
    cbn [bind] in H.
    destruct (bind (inverse_transform enc [prediction]) item0) as [section|];
      [|discriminate].
    cbn [bind] in H.
    destruct (np_max probabilities) as [peak|]; [|discriminate].
    injection H as <-. now exists section, (peak * 100)%float.
  - right. exists e. split; [now apply analyze_try_fails | reflexivity].
Qed.

(** C1. When the classifier returns a probability distribution (a row
    that is not empty, of floats from 0 to 1; every row of floats
    that are not negative and sum to 1 is one, see
    [MaximumFacts.sums_to_one_distribution]), the confidence of the
    result is the maximum entry of the row times 100, the binary64
    product the program computes, whatever class was predicted, and
    lies between 0 and 100. *)
Theorem confidence_is_peak_probability
        files text (prediction : nat) (probabilities : list float) section :
  classifies files text prediction probabilities section ->
  distribution probabilities ->
  exists peak confidence,
    maximum_of probabilities peak
    /\ lookup "confidence" (analyze_case files text) = Some (VFloat confidence)
    /\ confidence = (peak * 100)%float
    /\ (0 <=? confidence)%float = true /\ (confidence <=? 100)%float = true.
Proof.
  intros Hrun Hdist.
  destruct (@MaximumFacts.np_max_spec
              probabilities (proj1 Hdist)
              (@MaximumFacts.distribution_numbers probabilities Hdist))
    as (peak & Hmax & Hpeak).
  destruct (@MaximumFacts.maximum_of_distribution probabilities peak Hdist Hpeak)
    as [H0 H1].
  exists peak, (peak * 100)%float.
  split; [exact Hpeak|]. split.
  - unfold analyze_case.
    rewrite (analyze_try_success Hrun), Hmax. reflexivity.
  - split; [reflexivity|]. exact (@Float64.percent_bounds peak H0 H1).
Qed.

(** C5. When a step of the analysis fails, the result is the failure
    record: the input text as it was given, the description of the
    error and the fixed message, and none of the fields of a success
    record.  Every result has the fields of a success record or those
    of a failure record, never some of both. *)
Theorem failure_record_on_failing_step files text :
  (forall e,
      step_fails files text e ->
      analyze_case files text =
      [ ("case_text", VStr text);
        ("error", VStr e);
        ("message", VStr error_message) ]
      /\ forall k, In k success_only_keys ->
                   has_key k (analyze_case files text) = false)
  /\ lookup "case_text" (analyze_case files text) = Some (VStr text)
  /\ (keys (analyze_case files text) = success_keys
      \/ keys (analyze_case files text) = failure_keys)
  /\ (forall k k', has_key k (analyze_case files text) = true ->
                   has_key k' (analyze_case files text) = true ->
                   In k ["error"; "message"] ->
                   ~ In k' success_only_keys).
Proof.
  split; [|split; [|split]].
  - intros e He. apply analyze_try_fails in He.
    unfold analyze_case. rewrite He. split; [reflexivity|].
    intros k Hk. unfold success_only_keys in Hk. cbn [In] in Hk.
    decompose [or] Hk; subst; try reflexivity. contradiction.
  - destruct (analyze_case_shape files text) as [(s & c & ->)|(e & _ & ->)];
      reflexivity.
  - destruct (analyze_case_shape files text) as [(s & c & ->)|(e & _ & ->)];
      [left | right]; reflexivity.
  - intros k k' Hk Hk' Hin Hin'.
    unfold success_only_keys in Hin'. cbn [In] in Hin, Hin'.
    destruct (analyze_case_shape files text) as [(s & c & H)|(e & _ & H)];
      rewrite H in Hk, Hk'.
    + decompose [or] Hin; subst; try discriminate; contradiction.
    + decompose [or] Hin'; subst; try discriminate; contradiction.
Qed.

End OrchestratorFacts.

(** C9. For the stabbing case, with artifacts that make the classifier
    predict a class decoded to "302" and a row of probabilities whose
    maximum is the float 0.91, the result is a success record:
    section "302", confidence 91.0 (the binary64 product of 0.91 and
    100 is the float 91), an explanation that begins with "Murder:",
    the high-confidence recommendation, and participants that include
    "Person A" and "Person B". *)
Theorem stabbing_case_end_to_end
        (FeatureVector Config : Type)
        (files : model_files FeatureVector Config)
        (prediction : nat) (probabilities : list float) :
  classifies files stabbing_case prediction probabilities "302" ->
  maximum_of probabilities 0.91%float ->
  exists explanation parties,
    analyze_case files stabbing_case =
    [ ("case_text", VStr stabbing_case);
      ("predicted_section", VStr "302");
      ("confidence", VFloat 91%float);
      ("parties", VList parties);
      ("explanation", VStr explanation);
      ("recommendations", VStr high_confidence_text) ]
    /\ prefix "Murder:" explanation = true
    /\ parties = ["murdered Person"; "B by"; "stabbing multiple";
                  "Person A"; "Person B"]
    /\ In "Person A" parties /\ In "Person B" parties.
Proof.
  intros Hrun Hpeak.
  assert (Hne : probabilities <> []).
  { destruct Hpeak as [Hin _]. now destruct probabilities. }
  assert (Hnum : Forall is_number probabilities).
  { destruct Hpeak as [_ Hle]. eapply Forall_impl; [|exact Hle].
    intros x Hx. exact (@MaximumFacts.below_is_number x _ Hx). }
  destruct (@MaximumFacts.np_max_spec probabilities Hne Hnum)
    as (m & Hmax & Hm).
  assert (Hfin : finite_nonzero 0.91%float) by (vm_compute; exact I).
  pose proof (@MaximumFacts.maximum_of_unique probabilities m _ Hfin Hm Hpeak)
    as Hmp.
  subst m.
  assert (Hconf : (0.91 * 100)%float = 91%float) by (vm_compute; reflexivity).
  exists (get_section_explanation "302" stabbing_case),
         (extract_parties stabbing_case).
  split.
  - unfold analyze_case. rewrite (analyze_try_success Hrun), Hmax.
    cbn [bind]. rewrite Hconf. reflexivity.
  - split; [reflexivity|].
    split; [vm_compute; reflexivity|].
    split; vm_compute; tauto.
Qed.

(** *** The theorems at concrete inputs *)

Lemma classifies_fixture text prediction probabilities section :
  classifies (fixture prediction probabilities section) text
             prediction probabilities section.
Proof.
  unfold classifies, fixture. cbn.
  do 8 eexists. repeat split; reflexivity.
Defined.

Lemma confidence_is_peak_probability_witness :
  exists peak confidence,
    maximum_of [0.3; 0.7]%float peak
    /\ lookup "confidence"
         (analyze_case (fixture 0 [0.3; 0.7]%float "379")
                       "The accused stole a laptop from the office")
       = Some (VFloat confidence)
    /\ confidence = (peak * 100)%float
    /\ (0 <=? confidence)%float = true /\ (confidence <=? 100)%float = true.
Proof.
  apply (@confidence_is_peak_probability
           unit unit (fixture 0 [0.3; 0.7]%float "379")
           "The accused stole a laptop from the office"
           0 [0.3; 0.7]%float "379").
  - apply classifies_fixture.
  - split; [discriminate|].
    repeat (apply Forall_cons; [split; vm_compute; reflexivity|]).
    apply Forall_nil.
Defined.

Lemma failure_record_on_failing_step_witness :
  analyze_case fixture_missing_classifier "Person A attacked Person B" =
  [ ("case_text", VStr "Person A attacked Person B");
    ("error",
      VStr "[Errno 2] No such file or directory: 'rf_classifier.pkl'");
    ("message", VStr error_message) ]
  /\ forall k, In k success_only_keys ->
       has_key k (analyze_case fixture_missing_classifier
                               "Person A attacked Person B") = false.
Proof.
  apply (proj1 (@failure_record_on_failing_step
                  unit unit fixture_missing_classifier
                  "Person A attacked Person B")).
  apply fails_loading. reflexivity.
Defined.

Lemma stabbing_case_end_to_end_witness :
  exists explanation parties,
    analyze_case (fixture 0 [0.91; 0.05; 0.04]%float "302") stabbing_case =
    [ ("case_text", VStr stabbing_case);
      ("predicted_section", VStr "302");
      ("confidence", VFloat 91%float);
      ("parties", VList parties);
      ("explanation", VStr explanation);
      ("recommendations", VStr high_confidence_text) ]
    /\ prefix "Murder:" explanation = true
    /\ parties = ["murdered Person"; "B by"; "stabbing multiple";
                  "Person A"; "Person B"]
    /\ In "Person A" parties /\ In "Person B" parties.
Proof.
  apply (@stabbing_case_end_to_end
           unit unit (fixture 0 [0.91; 0.05; 0.04]%float "302")
           0 [0.91; 0.05; 0.04]%float).
  - apply classifies_fixture.
  - split; [now left|].
    repeat (apply Forall_cons; [vm_compute; reflexivity|]).
    apply Forall_nil.
Defined.

Lemma explanation_cascade_priority_witness :
  get_section_explanation "379" "She struck him in SELF DEFENSE"
  = get_self_defense_explanation "She struck him in SELF DEFENSE".
Proof.
  apply (proj1 (explanation_cascade_priority
                  "379" "She struck him in SELF DEFENSE")).
  right. apply ExplanationFacts.contains_lower. reflexivity.
Defined.

(* ================================================================= *)
(** * Further properties of the code *)

(** ** Text normaliser *)

Module NormalizerMore.
Import StrFacts.

(** What the substitution leaves of a character is whitespace
    exactly when the character is not a letter. *)
Lemma cleaned_space_iff d :
  Char.isspace (if Char.is_letter d || Char.isspace d then d else " "%char)
  = negb (Char.is_letter d).
Proof. CharFacts.all_chars d. Qed.

Lemma cleaned_all_space t :
  Str.forallb Char.isspace (sub_non_letters t) = no_letter t.
Proof.
  unfold sub_non_letters, no_letter.
  induction t as [|c t IH]; [reflexivity|].
  cbn [Str.map Str.forallb]. rewrite IH. f_equal. apply cleaned_space_iff.
Qed.

Lemma split_nil_iff t :
  Str.split t = [] <-> Str.forallb Char.isspace t = true.
Proof.
  induction t as [|c t IH]; [easy|].
  rewrite split_cons. cbn [Str.forallb].
  destruct (Char.isspace c); [exact IH|].
  split; [|discriminate].
  destruct t as [|d t']; [discriminate|].
  destruct (Char.isspace d); [discriminate|].
  destruct (Str.split (String d t')); discriminate.
Qed.

Lemma join_empty_iff ws :
  Forall is_word ws -> Str.join " " ws = "" <-> ws = [].
Proof.
  intros H. split; [|now intros ->].
  destruct H as [|w ws [Hne _] _]; [reflexivity|].
  intros Hj. now apply NormalizerFacts.join_not_empty with (ws := ws) in Hne.
Qed.


Lemma join_cons_length c w ws :
  String.length (Str.join " " (String c w :: ws))
  = S (String.length (Str.join " " (w :: ws))).
Proof. destruct ws; reflexivity. Qed.

Lemma join_split_length t :
  String.length (Str.join " " (Str.split t))
  + match t with
    | String c _ => if Char.isspace c then 1 else 0
    | EmptyString => 0
    end
  <= String.length t.
Proof.
  induction t as [|c t IH]; [reflexivity|].
  rewrite split_cons. cbn [String.length].
  destruct (Char.isspace c) eqn:Hc.
  - destruct t as [|d t']; [cbn; lia|].
    destruct (Char.isspace d); lia.
  - destruct t as [|d t']; [cbn; lia|].
    destruct (Char.isspace d) eqn:Hd.
    + destruct (Str.split (String d t')) as [|w ws]; [cbn; lia|].
      change (Str.join " " (String c "" :: w :: ws))
        with (String c (String " " (Str.join " " (w :: ws)))).
      cbn [String.length] in *. lia.
    + destruct (Str.split (String d t')) as [|w ws]; [cbn; lia|].
      rewrite join_cons_length. lia.
Qed.

End NormalizerMore.

(** X1. The normal form of a text is empty exactly when the
    lowercase form of the text, [text.lower()], has no ASCII letter
    (so for the empty text, for digits, punctuation, whitespace and
    accented letters). *)
Theorem preprocess_text_empty_iff (s : string) :
  preprocess_text s = "" <-> no_letter (Str.lower s) = true.
Proof.
  unfold preprocess_text.
  rewrite NormalizerMore.join_empty_iff by apply StrFacts.split_words.
  rewrite NormalizerMore.split_nil_iff.
  now rewrite NormalizerMore.cleaned_all_space.
Qed.



(** X3. The normal form is never longer than the lowercase form of
    the text, [text.lower()]: the substitution keeps the length and
    joining the words by single spaces does not add to it. *)
Theorem preprocess_text_length (s : string) :
  String.length (preprocess_text s) <= String.length (Str.lower s).
Proof.
  unfold preprocess_text.
  pose proof (NormalizerMore.join_split_length
                (sub_non_letters (Str.lower s))) as H.
  assert (Hlen : forall f t, String.length (Str.map f t) = String.length t).
  { intros f t. induction t as [|c t IH]; simpl; [reflexivity | now rewrite IH]. }
  unfold sub_non_letters in *. rewrite Hlen in H. lia.
Qed.

(** ** Participant extractor *)

Module ExtractorMore.
Import StrFacts.

Lemma lower_letter_is_letter c p :
  Char.is_letter p = true -> Char.lower c = Char.lower p ->
  Char.is_letter c = true.
Proof.
  intros Hp Hc.
  assert (Hl : Char.is_lower (Char.lower c) = true).
  { rewrite Hc. revert Hp. clear. CharFacts.all_chars p. }
  revert Hl. clear. CharFacts.all_chars c.
Qed.

Lemma lower_word_letters pat : forall w,
  Str.forallb Char.is_letter pat = true ->
  Str.lower w = Str.lower pat ->
  Str.forallb Char.is_letter w = true.
Proof.
  induction pat as [|p pat IH]; intros w Hpat Hw.
  - now destruct w.
  - apply ReFacts.lower_cons_inv in Hw as (c & w' & -> & Hc & Hw').
    cbn [Str.forallb] in *. apply andb_true_iff in Hpat as [Hp Hpat].
    now rewrite (@lower_letter_is_letter c p Hp Hc), (IH w' Hpat Hw').
Qed.

Lemma letters_are_letters_and_space w :
  Str.forallb Char.is_letter w = true -> letters_and_space w = true.
Proof.
  apply forallb_impl. intros c ->. reflexivity.
Qed.

Lemma spaces_are_letters_and_space w :
  Str.forallb Char.isspace w = true -> letters_and_space w = true.
Proof.
  apply forallb_impl. intros c ->. apply orb_true_r.
Qed.

Lemma letters_and_space_app u v :
  letters_and_space (u ++ v) = letters_and_space u && letters_and_space v.
Proof. apply forallb_app. Qed.

Lemma spaces_not_free sp :
  sp <> "" -> Str.forallb Char.isspace sp = true ->
  Str.forallb not_space sp = false.
Proof.
  destruct sp as [|c sp]; [congruence|]. intros _. cbn [Str.forallb].
  rewrite andb_true_iff. intros [Hc _]. unfold not_space at 1.
  now rewrite Hc.
Qed.

(** What the two branches of the generic pattern denote: letters, a
    run of whitespace, letters. *)
Lemma person_pattern_inv u :
  Re.matches person_pattern u ->
  exists w sp v,
    u = w ++ sp ++ v
    /\ w <> "" /\ Str.forallb Char.is_letter w = true
    /\ sp <> "" /\ Str.forallb Char.isspace sp = true
    /\ v <> "" /\ Str.forallb Char.is_letter v = true.
Proof.
  unfold person_pattern. intros H.
  inversion H as [| |r1 r2 u0 H1|r1 r2 u0 H2| |]; subst.
  - apply (@ReFacts.matches_word_ignorecase_inv
             "person" (Re.Seq (Re.Plus Char.isspace) (Re.Cls Char.is_letter)))
      in H1 as (w & rest & -> & Hw & H1).
    inversion H1 as [|r1 r2 sp t Hsp Ht| | | |]; subst.
    inversion Ht as [q l Hl| | | | |]; subst.
    apply ReFacts.matches_plus in Hsp as [Hne Hsp].
    exists w, sp, (String l ""). repeat split; try assumption.
    + destruct w; [discriminate Hw | discriminate].
    + now apply lower_word_letters with (pat := "person").
    + discriminate.
    + cbn. now rewrite Hl.
  - inversion H2 as [|r1 r2 w t Hw Ht| | | |]; subst.
    inversion Ht as [|r1 r2 sp v Hsp Hv| | | |]; subst.
    apply ReFacts.matches_plus in Hw as [? ?], Hsp as [? ?], Hv as [? ?].
    now exists w, sp, v.
Qed.

Lemma person_pattern_shape u :
  Re.matches person_pattern u ->
  letters_and_space u = true /\ Str.forallb not_space u = false.
Proof.
  intros H. apply person_pattern_inv in H
    as (w & sp & v & -> & _ & Hw & Hne & Hsp & _ & Hv).
  split.
  - rewrite !letters_and_space_app.
    now rewrite (letters_are_letters_and_space _ Hw),
                (spaces_are_letters_and_space _ Hsp),
                (letters_are_letters_and_space _ Hv).
  - rewrite !forallb_app, (spaces_not_free Hne Hsp).
    now rewrite andb_false_r.
Qed.

Lemma person_letter_has_space x u :
  Re.matches (person_letter x) u -> Str.forallb not_space u = false.
Proof.
  unfold person_letter. intros H.
  apply ReFacts.matches_word_ignorecase_inv in H as (w & rest & -> & _ & H).
  inversion H as [|r1 r2 sp t Hsp Ht| | | |]; subst.
  apply ReFacts.matches_plus in Hsp as [Hne Hsp].
  rewrite !forallb_app, (spaces_not_free Hne Hsp).
  now rewrite andb_false_r.
Qed.

(** A part of a text without whitespace has none either. *)
Lemma part_not_space pre u post :
  Str.forallb not_space (pre ++ u ++ post) = true ->
  Str.forallb not_space u = true.
Proof.
  rewrite !forallb_app, !andb_true_iff. tauto.
Qed.

Lemma search_no_space x text :
  Str.forallb not_space text = true ->
  Re.search (person_letter x) text = false.
Proof.
  intros Ht. apply not_true_is_false. intros H.
  apply ReFacts.search_spec in H as (pre & u & post & -> & Hu).
  apply person_letter_has_space in Hu.
  apply part_not_space in Ht. congruence.
Qed.

Lemma findall_no_space text :
  Str.forallb not_space text = true ->
  Re.findall person_pattern text = [].
Proof.
  intros Ht. destruct (Re.findall person_pattern text) as [|m ms] eqn:E;
    [reflexivity|].
  assert (Hm : In m (Re.findall person_pattern text)) by (rewrite E; now left).
  apply ReFacts.findall_sound in Hm as [Hm (pre & u & post & -> & <-)].
  apply person_pattern_shape in Hm as [_ Hm].
  apply part_not_space in Ht. congruence.
Qed.

(** The entries the loop adds are matches it kept, in their order. *)
Lemma generic_pass_subsequence ms : forall parties,
  exists added,
    generic_pass ms parties = (parties ++ added)%list
    /\ subsequence added ms.
Proof.
  induction ms as [|m ms IH]; intros parties.
  - exists []. split; [cbn; now rewrite app_nil_r | constructor].
  - destruct (ExtractorFacts.generic_pass_cases m parties) as [[H|H]|[H1 H2]].
    + rewrite ExtractorFacts.generic_pass_standard by assumption.
      destruct (IH parties) as (added & -> & Hs).
      exists added. split; [reflexivity | now constructor].
    + rewrite ExtractorFacts.generic_pass_duplicate by assumption.
      destruct (IH parties) as (added & -> & Hs).
      exists added. split; [reflexivity | now constructor].
    + rewrite ExtractorFacts.generic_pass_fresh by assumption.
      destruct (IH (parties ++ [m])%list) as (added & -> & Hs).
      exists (m :: added). split; [now rewrite <- app_assoc | now constructor].
Qed.

(** Letters and whitespace are no symbols. *)
Lemma letters_and_space_no_symbol p :
  letters_and_space p = true -> no_ascii_symbol p = true.
Proof.
  unfold letters_and_space, no_ascii_symbol.
  induction p as [|c p IH]; [reflexivity|].
  cbn [Str.forallb]. intros H. apply andb_true_iff in H as [Hc Hp].
  rewrite (IH Hp), andb_true_r. unfold ascii_symbol.
  apply orb_true_iff in Hc as [-> | ->];
    now rewrite ?andb_false_r, ?andb_false_l.
Qed.

End ExtractorMore.

(** X4. A text without whitespace, the empty text included, has no
    participants: both patterns need whitespace between two words. *)
Theorem extract_parties_single_token (text : string) :
  Str.forallb not_space text = true -> extract_parties text = [].
Proof.
  intros Ht. rewrite ExtractorFacts.extract_parties_eq.
  rewrite (@ExtractorMore.findall_no_space text Ht).
  now rewrite !(fun x => @ExtractorMore.search_no_space x text Ht).
Qed.

Lemma extract_parties_single_token_witness :
  extract_parties "PersonA" = [].
Proof.
  apply (@extract_parties_single_token "PersonA"). reflexivity.
Defined.

(** X5. Every participant returned has whitespace inside, and no
    ASCII character of it is anything but a letter or whitespace:
    the digits and the punctuation marks of the text never get into
    a name. *)
Theorem extract_parties_entries (text p : string) :
  In p (extract_parties text) ->
  no_ascii_symbol p = true /\ Str.forallb not_space p = false.
Proof.
  rewrite ExtractorFacts.extract_parties_eq. intros Hp.
  apply in_app_or in Hp as [Hp|Hp].
  - apply ExtractorFacts.generic_pass_In in Hp as [[]|[Hp _]].
    apply ReFacts.findall_sound in Hp as [Hp _].
    apply ExtractorMore.person_pattern_shape in Hp as [Hl Hs].
    split; [now apply ExtractorMore.letters_and_space_no_symbol | exact Hs].
  - destruct (Re.search (person_letter "a") text),
             (Re.search (person_letter "b") text),
             (Re.search (person_letter "c") text);
      cbn in Hp; decompose [or] Hp; subst; try contradiction;
      split; reflexivity.
Qed.

Lemma extract_parties_entries_witness :
  no_ascii_symbol "stole laptops" = true
  /\ Str.forallb not_space "stole laptops" = false.
Proof.
  apply (@extract_parties_entries "He stole 2 laptops, stole laptops."
                                  "stole laptops").
  vm_compute. tauto.
Defined.

(** X6. The generic entries keep the order in which the pattern
    matched: the output is a selection of the matches, in order,
    followed by a selection of the three canonical names, in order. *)
Theorem extract_parties_order (text : string) :
  exists generic canonical,
    extract_parties text = (generic ++ canonical)%list
    /\ subsequence generic (Re.findall person_pattern text)
    /\ subsequence canonical ["Person A"; "Person B"; "Person C"].
Proof.
  destruct (ExtractorMore.generic_pass_subsequence
              (Re.findall person_pattern text) []) as (generic & Hg & Hs).
  exists generic,
    ((if Re.search (person_letter "a") text then ["Person A"] else [])
     ++ (if Re.search (person_letter "b") text then ["Person B"] else [])
     ++ (if Re.search (person_letter "c") text then ["Person C"] else []))%list.
  split; [|split].
  - now rewrite ExtractorFacts.extract_parties_eq, Hg.
  - exact Hs.
  - destruct (Re.search (person_letter "a") text),
             (Re.search (person_letter "b") text),
             (Re.search (person_letter "c") text);
      cbn;
      repeat first [apply subsequence_keep | apply subsequence_skip
                    | apply subsequence_nil].
Qed.

(** ** Explanation engine *)

Module ExplanationMore.

Lemma append_cancel_r (t s1 s2 : string) :
  s1 ++ t = s2 ++ t -> s1 = s2.
Proof.
  revert s2. induction s1 as [|c s1 IH]; intros s2 H.
  - destruct s2 as [|d s2]; [reflexivity|].
    apply (f_equal String.length) in H.
    cbn [append String.length] in H. rewrite StrFacts.append_length in H. lia.
  - destruct s2 as [|d s2].
    + apply (f_equal String.length) in H.
      cbn [append String.length] in H. rewrite StrFacts.append_length in H. lia.
    + cbn [append] in H. injection H as -> H. f_equal. now apply IH.
Qed.

(** The cascade without its two special cases. *)
Lemma general_explanation section text :
  no_special_phrase text ->
  get_section_explanation section text = get_section_explanation section "".
Proof.
  intros (H1 & H2 & H3 & H4 & H5). unfold get_section_explanation.
  rewrite (ExplanationFacts.not_contains_lower H1),
          (ExplanationFacts.not_contains_lower H2),
          (ExplanationFacts.not_contains_lower H3),
          (ExplanationFacts.not_contains_lower H4),
          (ExplanationFacts.not_contains_lower H5).
  reflexivity.
Qed.

(** The table entry of a label, or the fallback. *)
Lemma general_explanation_cases section :
  (In section table_codes
   /\ Str.first (get_section_explanation section "") <> Some "S"%char)
  \/ get_section_explanation section ""
     = "Section " ++ section ++ " of the Indian Penal Code".
Proof.
  unfold get_section_explanation. cbn [Str.lower Str.map Str.contains orb prefix].
  repeat match goal with
         | |- context [String.eqb section ?code] =>
             destruct (String.eqb_spec section code) as [->|_];
             [left; split; [unfold table_codes; cbn [In]; tauto
                           | cbn; discriminate]|]
         end.
  now right.
Qed.

Lemma table_explanations_differ s1 s2 :
  In s1 table_codes -> In s2 table_codes ->
  get_section_explanation s1 "" = get_section_explanation s2 "" -> s1 = s2.
Proof.
  unfold table_codes. cbn [In]. intros H1 H2.
  decompose [or] H1; decompose [or] H2; subst; try contradiction;
    try reflexivity; intros H; vm_compute in H; discriminate H.
Qed.

End ExplanationMore.

(** X7. Away from the two special cases the explanation tells the
    label: for a text without special phrases, two different labels
    never get the same explanation. *)
Theorem explanation_determines_section (s1 s2 text : string) :
  no_special_phrase text ->
  s1 <> s2 ->
  get_section_explanation s1 text <> get_section_explanation s2 text.
Proof.
  intros Htext Hneq. rewrite !(ExplanationMore.general_explanation _ Htext).
  destruct (ExplanationMore.general_explanation_cases s1) as [[H1 F1]|E1],
           (ExplanationMore.general_explanation_cases s2) as [[H2 F2]|E2];
    intros H.
  - now apply Hneq, ExplanationMore.table_explanations_differ.
  - rewrite H, E2 in F1. now contradiction F1.
  - rewrite <- H, E1 in F2. now contradiction F2.
  - rewrite E1, E2 in H. cbn [append] in H.
    injection H as H. now apply ExplanationMore.append_cancel_r in H.
Qed.

Lemma explanation_determines_section_witness :
  get_section_explanation "304" "He fell from the roof"
  <> get_section_explanation "304A" "He fell from the roof".
Proof.
  apply (@explanation_determines_section "304" "304A" "He fell from the roof").
  - repeat split; intros H; apply ExplanationFacts.contains_lower in H;
      discriminate.
  - discriminate.
Defined.

(** ** Analysis orchestrator *)

Section OrchestratorMore.

Variables FeatureVector Config : Type.
Implicit Types (files : model_files FeatureVector Config) (text : string).

(** X8. The result has an error field exactly when a step of the
    analysis fails, and the field then holds the description of that
    failure; otherwise the result has the predicted section. *)
Theorem error_field_iff_step_fails files text :
  (forall e, lookup "error" (analyze_case files text) = Some (VStr e)
             <-> step_fails files text e)
  /\ (has_key "error" (analyze_case files text) = false
      <-> forall e, ~ step_fails files text e)
  /\ (has_key "predicted_section" (analyze_case files text) = true
      <-> forall e, ~ step_fails files text e).
Proof.
  assert (Hfail : forall e, step_fails files text e ->
            analyze_case files text =
            [ ("case_text", VStr text); ("error", VStr e);
              ("message", VStr error_message) ]).
  { intros e He. apply analyze_try_fails in He.
    unfold analyze_case. now rewrite He. }
  destruct (analyze_case_shape files text) as [(s & c & Hok)|(e0 & He0 & Hko)].
  - assert (Hnone : forall e, ~ step_fails files text e).
    { intros e He. apply Hfail in He. rewrite He in Hok. discriminate. }
    rewrite Hok. split; [|split].
    + intros e. split; [discriminate | intros He; now apply Hnone in He].
    + split; [intros _; exact Hnone | reflexivity].
    + split; [intros _; exact Hnone | reflexivity].
  - rewrite Hko. split; [|split].
    + intros e. split.
      * cbn. now intros [= <-].
      * intros He. apply Hfail in He. rewrite He in Hko.
        injection Hko as ->. reflexivity.
    + split; [discriminate | intros H; now apply H in He0].
    + split; [discriminate | intros H; now apply H in He0].
Qed.

(** X9. The configuration document is loaded and never read: two
    sets of files with the same three artifacts and configuration
    documents that both load give the same result. *)
Theorem config_content_is_ignored files files' text (cfg cfg' : Config) :
  rf_classifier_pkl files = rf_classifier_pkl files' ->
  tfidf_vectorizer_pkl files = tfidf_vectorizer_pkl files' ->
  label_encoder_pkl files = label_encoder_pkl files' ->
  model_config_json files = Ok cfg ->
  model_config_json files' = Ok cfg' ->
  analyze_case files text = analyze_case files' text.
Proof.
  intros Hc Hv He Hcfg Hcfg'.
  unfold analyze_case, analyze_try. rewrite Hc, Hv, He, Hcfg, Hcfg'.
  destruct (rf_classifier_pkl files') as [clf|]; [|reflexivity].
  destruct (tfidf_vectorizer_pkl files') as [vec|]; [|reflexivity].
  destruct (label_encoder_pkl files') as [enc|]; reflexivity.
Qed.

(** X10. What the classifier is asked depends on the text only
    through its normal form: two texts with the same normal form get
    the same predicted section, confidence and recommendation, or
    fail with the same error. *)
Theorem prediction_depends_on_normal_form files text text' :
  preprocess_text text = preprocess_text text' ->
  forall key, In key ["predicted_section"; "confidence"; "recommendations";
                      "error"; "message"] ->
  lookup key (analyze_case files text) = lookup key (analyze_case files text').
Proof.
  intros Hnorm key Hkey. unfold analyze_case.
  rewrite !analyze_try_steps, Hnorm.
  destruct (loaded files) as [[[[clf vec] enc] cfg]|]; cbn [bind];
    [|cbn [In] in Hkey; decompose [or] Hkey; subst; try contradiction;
      reflexivity].
  destruct (transform vec [preprocess_text text']) as [v|]; cbn [bind];
    [|cbn [In] in Hkey; decompose [or] Hkey; subst; try contradiction;
      reflexivity].
  destruct (bind (predict clf v) item0) as [prediction|]; cbn [bind];
    [|cbn [In] in Hkey; decompose [or] Hkey; subst; try contradiction;
      reflexivity].
  destruct (bind (predict_proba clf v) item0) as [probabilities|]; cbn [bind];
    [|cbn [In] in Hkey; decompose [or] Hkey; subst; try contradiction;
      reflexivity].
  destruct (bind (inverse_transform enc [prediction]) item0) as [section|];
    cbn [bind];
    [|cbn [In] in Hkey; decompose [or] Hkey; subst; try contradiction;
      reflexivity].
  destruct (np_max probabilities) as [peak|]; cbn [bind];
    [generalize (extract_parties text), (extract_parties text'),
                (get_section_explanation section text),
                (get_section_explanation section text'),
                (get_recommendations_float (peak * 100)%float);
     intros ps ps' ex ex' rec|];
    cbn [In] in Hkey; decompose [or] Hkey; subst; try contradiction;
    reflexivity.
Qed.

End OrchestratorMore.

Lemma config_content_is_ignored_witness :
  analyze_case (fixture_with_config 1) "The accused stole a laptop"
  = analyze_case (fixture_with_config 2) "The accused stole a laptop".
Proof.
  apply (@config_content_is_ignored
           unit nat (fixture_with_config 1) (fixture_with_config 2)
           "The accused stole a laptop" 1 2); reflexivity.
Defined.

Lemma prediction_depends_on_normal_form_witness :
  lookup "confidence"
         (analyze_case (fixture_with_config 0) "The accused STOLE a laptop!")
  = lookup "confidence"
           (analyze_case (fixture_with_config 0) "the accused stole a laptop").
Proof.
  apply (@prediction_depends_on_normal_form
           unit nat (fixture_with_config 0)
           "The accused STOLE a laptop!" "the accused stole a laptop").
  - vm_compute. reflexivity.
  - cbn [In]. tauto.
Defined.

(** ** Interactive driver *)

Module StripFacts.
Import StrFacts.

Lemma lstrip_spaces l s :
  Str.forallb Char.isspace l = true ->
  Strip.lstrip (l ++ s) = Strip.lstrip s.
Proof.
  induction l as [|c l IH]; [reflexivity|].
  cbn [Str.forallb append Strip.lstrip]. rewrite andb_true_iff.
  intros [-> Hl]. now apply IH.
Qed.

Lemma lstrip_fixed s :
  (forall c, Str.first s = Some c -> Char.isspace c = false) ->
  Strip.lstrip s = s.
Proof.
  destruct s as [|c s]; [reflexivity|]. intros H.
  cbn [Strip.lstrip]. now rewrite (H c eq_refl).
Qed.

Lemma rstrip_cons c s :
  Strip.rstrip (String c s) =
  match Strip.rstrip s with
  | EmptyString => if Char.isspace c then EmptyString else String c EmptyString
  | String _ _ => String c (Strip.rstrip s)
  end.
Proof. cbn [Strip.rstrip]. now destruct (Strip.rstrip s). Qed.

Lemma rstrip_spaces r :
  Str.forallb Char.isspace r = true -> Strip.rstrip r = "".
Proof.
  induction r as [|c r IH]; [reflexivity|].
  cbn [Str.forallb]. rewrite andb_true_iff. intros [Hc Hr].
  now rewrite rstrip_cons, (IH Hr), Hc.
Qed.

Lemma rstrip_app_spaces u r :
  Str.forallb Char.isspace r = true ->
  Strip.rstrip (u ++ r) = Strip.rstrip u.
Proof.
  intros Hr. induction u as [|c u IH].
  - cbn [append]. now rewrite rstrip_spaces.
  - change (String c u ++ r) with (String c (u ++ r)).
    now rewrite !rstrip_cons, IH.
Qed.

Lemma rstrip_fixed u :
  (forall c, Str.last u = Some c -> Char.isspace c = false) ->
  Strip.rstrip u = u.
Proof.
  induction u as [|c u IH]; [reflexivity|]. intros H.
  rewrite rstrip_cons. destruct u as [|d u'].
  - cbn [Strip.rstrip]. now rewrite (H c eq_refl).
  - rewrite IH.
    + reflexivity.
    + intros e He. apply H. now rewrite NormalizerFacts.last_cons.
Qed.

Lemma lstrip_blank s :
  Str.forallb Char.isspace s = true -> Strip.lstrip s = "".
Proof.
  induction s as [|c s IH]; [reflexivity|].
  cbn [Str.forallb Strip.lstrip]. rewrite andb_true_iff.
  intros [-> Hs]. now apply IH.
Qed.

(** [strip] takes the whitespace off both ends and nothing else. *)
Lemma strip_spec l u r :
  Str.forallb Char.isspace l = true ->
  Str.forallb Char.isspace r = true ->
  (forall c, Str.first u = Some c -> Char.isspace c = false) ->
  (forall c, Str.last u = Some c -> Char.isspace c = false) ->
  Strip.strip (l ++ u ++ r) = u.
Proof.
  intros Hl Hr Hfirst Hlast. unfold Strip.strip.
  rewrite (@lstrip_spaces l (u ++ r) Hl).
  destruct u as [|c u].
  - cbn [append]. now rewrite (@lstrip_blank r Hr).
  - rewrite lstrip_fixed.
    + rewrite (@rstrip_app_spaces (String c u) r Hr). now apply rstrip_fixed.
    + intros d [= <-]. now apply Hfirst.
Qed.

Lemma strip_blank s :
  Str.forallb Char.isspace s = true -> Strip.strip s = "".
Proof.
  intros H. unfold Strip.strip. now rewrite (@lstrip_blank s H).
Qed.

Lemma letter_not_space c : Char.is_letter c = true -> Char.isspace c = false.
Proof. CharFacts.all_chars c. Qed.

Lemma first_forallb p s c :
  Str.forallb p s = true -> Str.first s = Some c -> p c = true.
Proof.
  destruct s as [|d s]; [discriminate|]. cbn [Str.forallb Str.first].
  rewrite andb_true_iff. now intros [Hd _] [= <-].
Qed.

(** The loop's test accepts the lines the vocabulary calls quit
    lines. *)
Lemma quit_line_is_quit line : quit_line line -> is_quit line = true.
Proof.
  intros (l & u & r & -> & Hl & Hr & Hu). unfold is_quit.
  assert (Hletters : Str.forallb Char.is_letter u = true).
  { now apply ExtractorMore.lower_word_letters with (pat := "quit"). }
  rewrite strip_spec; try assumption.
  - rewrite Hu. reflexivity.
  - intros c Hc. apply letter_not_space.
    now apply first_forallb with (s := u).
  - intros c Hc. apply letter_not_space.
    now apply NormalizerFacts.last_forallb with (s := u).
Qed.

Lemma lstrip_decompose s :
  exists l, s = l ++ Strip.lstrip s /\ Str.forallb Char.isspace l = true.
Proof.
  induction s as [|c s (l & Hs & Hl)]; [now exists ""|].
  cbn [Strip.lstrip]. destruct (Char.isspace c) eqn:Hc.
  - exists (String c l). cbn [append Str.forallb].
    now rewrite <- Hs, Hc, Hl.
  - now exists "".
Qed.

Lemma rstrip_decompose s :
  exists r, s = Strip.rstrip s ++ r /\ Str.forallb Char.isspace r = true.
Proof.
  induction s as [|c s (r & Hs & Hr)]; [now exists ""|].
  rewrite rstrip_cons. destruct (Strip.rstrip s) as [|d t] eqn:E.
  - destruct (Char.isspace c) eqn:Hc.
    + exists (String c s). split; [reflexivity|].
      cbn [Str.forallb]. rewrite Hc. cbn [append] in Hs. now rewrite Hs.
    + exists s. split; [reflexivity|]. cbn [append] in Hs. now rewrite Hs.
  - exists r. split; [|assumption]. cbn [append]. f_equal. exact Hs.
Qed.

Lemma is_quit_quit_line line : is_quit line = true -> quit_line line.
Proof.
  unfold is_quit, Strip.strip. intros H. apply String.eqb_eq in H.
  destruct (lstrip_decompose line) as (l & Hline & Hl).
  destruct (rstrip_decompose (Strip.lstrip line)) as (r & Hrest & Hr).
  exists l, (Strip.rstrip (Strip.lstrip line)), r.
  repeat split; try assumption. now rewrite <- Hrest.
Qed.

End StripFacts.

Section DriverFacts.

Variables FeatureVector Config : Type.
Variable format_1f : float -> string.
Variable str_float : float -> string.
Variable str_list : list string -> string.
Variable files : model_files FeatureVector Config.

Local Abbreviation show := (report format_1f str_float str_list).
Local Abbreviation loop := (main_loop format_1f str_float str_list files).
Local Abbreviation session := (main format_1f str_float str_list files).

(** Code that returns after writing [out], followed by [k]. *)
Lemma seq_returns (m : io unit) (out : list string) (k : io unit) :
  m = (out, inr tt) ->
  (m ;;; k) = ((out ++ fst k)%list, snd k).
Proof. intros ->. unfold io_bind. now destruct k. Qed.

Lemma for_each_print (f : string -> string) (xs : list string) :
  for_each xs (fun x => print (f x))
  = (List.map (fun x => line_of (f x)) xs, inr tt).
Proof.
  induction xs as [|x xs IH]; [reflexivity|].
  cbn [for_each]. now rewrite (seq_returns _ (eq_refl : print (f x) = _)), IH.
Qed.

Lemma report_failure text e :
  show [ ("case_text", VStr text); ("error", VStr e);
           ("message", VStr error_message) ]
  = (failure_report text e, inr tt).
Proof. reflexivity. Qed.

Lemma report_success text section confidence parties explanation recs :
  show [ ("case_text", VStr text);
           ("predicted_section", VStr section);
           ("confidence", VFloat confidence);
           ("parties", VList parties);
           ("explanation", VStr explanation);
           ("recommendations", VStr recs) ]
  = (success_report text section (format_1f confidence) parties
                    explanation recs, inr tt).
Proof.
  destruct parties as [|p ps]; [reflexivity|].
  unfold report.
  cbn [has_key lookup String.eqb Ascii.eqb Bool.eqb get get_truthy getitem
       items io_bind print ret fst snd app for_each].
  rewrite for_each_print. reflexivity.
Qed.

(** Printing the result of an analysis never raises. *)
Lemma report_returns text :
  exists out, show (analyze_case files text) = (out, inr tt).
Proof.
  destruct (analyze_case_shape files text) as [(s & c & ->)|(e & _ & ->)].
  - eexists. apply report_success.
  - eexists. apply report_failure.
Qed.

Lemma main_loop_cons line stdin :
  loop (line :: stdin) =
  (print_no_end prompt ;;;
   if is_quit line then ret tt
   else if (Strip.strip line =? "")%string then
     print "Please enter a case description." ;;; loop stdin
   else show (analyze_case files (Strip.strip line)) ;;; loop stdin).
Proof. reflexivity. Qed.

Lemma main_loop_quit line stdin :
  is_quit line = true -> loop (line :: stdin) = ([prompt], inr tt).
Proof. intros H. rewrite main_loop_cons, H. reflexivity. Qed.

(** One turn of the loop on a line that does not end the session:
    what it writes, and that the loop goes on. *)
Lemma main_loop_turn line stdin :
  is_quit line = false ->
  exists out,
    loop (line :: stdin)
    = ((prompt :: out ++ fst (loop stdin))%list, snd (loop stdin))
    /\ (Strip.strip line = "" -> out = [empty_notice])
    /\ (Strip.strip line <> "" ->
        show (analyze_case files (Strip.strip line)) = (out, inr tt)).
Proof.
  intros Hq. rewrite main_loop_cons, Hq.
  destruct (String.eqb_spec (Strip.strip line) "") as [Hb|Hb].
  - exists [empty_notice]. split; [|split; [reflexivity | congruence]].
    rewrite (seq_returns _ (eq_refl : print_no_end prompt = _)).
    cbn [fst snd].
    now rewrite (seq_returns _ (eq_refl : print _ = _)).
  - destruct (report_returns (Strip.strip line)) as [out Hout].
    exists out. split; [|split; [congruence | now intros _]].
    rewrite (seq_returns _ (eq_refl : print_no_end prompt = _)).
    cbn [fst snd]. now rewrite (seq_returns _ Hout).
Qed.

Lemma main_through_loop stdin :
  exists banner,
    session stdin = ((banner ++ fst (loop stdin))%list, snd (loop stdin))
    /\ List.length banner = 6.
Proof.
  eexists. split.
  - unfold main.
    repeat (rewrite (seq_returns _ (eq_refl : print _ = _)); cbn [fst snd]).
    rewrite !app_assoc. reflexivity.
  - reflexivity.
Qed.

Lemma loop_outcome stdin :
  snd (loop stdin) = if existsb is_quit stdin then inr tt else inl EOFError.
Proof.
  induction stdin as [|line stdin IH]; [reflexivity|].
  cbn [existsb]. destruct (is_quit line) eqn:Hq.
  - now rewrite (@main_loop_quit line stdin Hq).
  - destruct (@main_loop_turn line stdin Hq) as (out & -> & _). cbn [snd orb].
    exact IH.
Qed.

Lemma exists_quit_line stdin :
  existsb is_quit stdin = true <-> Exists quit_line stdin.
Proof.
  rewrite existsb_exists, Exists_exists.
  split; intros (line & Hin & H); exists line; (split; [exact Hin|]).
  - now apply StripFacts.is_quit_quit_line.
  - now apply StripFacts.quit_line_is_quit.
Qed.

Lemma not_quit_line line : ~ quit_line line -> is_quit line = false.
Proof.
  intros H. apply not_true_is_false. intros Hq.
  now apply H, StripFacts.is_quit_quit_line.
Qed.

(** X11. The session ends in one of two ways only: it returns when
    some line is the word quit, in any case and with any whitespace
    around it, and otherwise it ends with [EOFError] when the input
    runs out.  Printing a result never raises. *)
Theorem session_ends_by_quit_or_end_of_input (stdin : list string) :
  (Exists quit_line stdin -> snd (session stdin) = inr tt)
  /\ (~ Exists quit_line stdin -> snd (session stdin) = inl EOFError).
Proof.
  destruct (main_through_loop stdin) as (banner & -> & _). cbn [snd].
  rewrite loop_outcome. split; intros H.
  - apply exists_quit_line in H. now rewrite H.
  - destruct (existsb is_quit stdin) eqn:E; [|reflexivity].
    now apply exists_quit_line in E.
Qed.

(** X12. Nothing that comes after a quit line is read: the session
    is the same with and without it. *)
Theorem nothing_is_read_after_quit (before : list string) (line : string)
        (after : list string) :
  quit_line line ->
  session (before ++ line :: after) = session (before ++ [line]).
Proof.
  intros Hq. apply StripFacts.quit_line_is_quit in Hq.
  assert (H : loop (before ++ line :: after) = loop (before ++ [line])).
  { induction before as [|l before IH].
    - cbn [app]. now rewrite !(fun s => @main_loop_quit line s Hq).
    - cbn [app]. now rewrite !main_loop_cons, IH. }
  unfold main. now rewrite H.
Qed.

(** X13. A line of whitespace only, the empty line included, is
    turned down with a notice: no analysis is run for it and the
    loop asks again. *)
Theorem blank_line_is_turned_down (line : string) (stdin : list string) :
  Str.forallb Char.isspace line = true ->
  loop (line :: stdin)
  = ((prompt :: empty_notice :: fst (loop stdin))%list, snd (loop stdin)).
Proof.
  intros Hb. apply StripFacts.strip_blank in Hb.
  assert (Hq : is_quit line = false) by (unfold is_quit; now rewrite Hb).
  destruct (@main_loop_turn line stdin Hq) as (out & -> & Hout & _).
  now rewrite (Hout Hb).
Qed.

(** X14. When the analysis of a line fails, the loop prints the case
    text, the error and the fixed message, and goes on with the next
    line. *)
Theorem failed_analysis_is_reported (line : string) (stdin : list string)
        (e : string) :
  ~ quit_line line ->
  Strip.strip line <> "" ->
  step_fails files (Strip.strip line) e ->
  loop (line :: stdin)
  = ((prompt :: failure_report (Strip.strip line) e ++ fst (loop stdin))%list,
     snd (loop stdin)).
Proof.
  intros Hq Hne He. apply not_quit_line in Hq.
  destruct (@main_loop_turn line stdin Hq) as (out & -> & _ & Hout).
  specialize (Hout Hne). apply analyze_try_fails in He.
  unfold analyze_case in Hout. rewrite He, report_failure in Hout.
  now injection Hout as <-.
Qed.

(** X15. When the analysis of a line succeeds, the loop prints the
    case text without the whitespace around it, the participants
    (with their heading only when there are any), the section with
    the confidence as formatted, the explanation and the
    recommendation, and goes on with the next line.  The confidence
    is [np.max] of the row times 100, the binary64 product, and the
    recommendation is the one of that float; [np.max] is the maximum
    entry when the row has no NaN. *)
Theorem successful_analysis_is_reported
        (line : string) (stdin : list string)
        (prediction : nat) (probabilities : list float) (section : string) :
  ~ quit_line line ->
  Strip.strip line <> "" ->
  classifies files (Strip.strip line) prediction probabilities section ->
  probabilities <> [] ->
  exists peak,
    np_max probabilities = Ok peak
    /\ (Forall is_number probabilities -> maximum_of probabilities peak)
    /\ loop (line :: stdin)
       = ((prompt
           :: success_report
                (Strip.strip line) section (format_1f (peak * 100)%float)
                (extract_parties (Strip.strip line))
                (get_section_explanation section (Strip.strip line))
                (get_recommendations_float (peak * 100)%float)
           ++ fst (loop stdin))%list,
          snd (loop stdin)).
Proof.
  intros Hq Hne Hrun Hprob. apply not_quit_line in Hq.
  destruct probabilities as [|x xs]; [congruence|].
  exists (fold_left larger xs x). split; [reflexivity|]. split.
  - intros Hnum.
    destruct (@MaximumFacts.np_max_spec (x :: xs) Hprob Hnum)
      as (peak & Hmax & Hpeak).
    injection Hmax as <-. exact Hpeak.
  - destruct (@main_loop_turn line stdin Hq) as (out & -> & _ & Hout).
    specialize (Hout Hne). unfold analyze_case in Hout.
    rewrite (analyze_try_success Hrun) in Hout. cbn [bind np_max] in Hout.
    rewrite report_success in Hout. now injection Hout as <-.
Qed.

End DriverFacts.

(** *** The driver at concrete inputs *)

Lemma nothing_is_read_after_quit_witness :
  main (fun _ => "70.0") (fun _ => "0.7") (fun _ => "[]")
       (fixture 0 [0.7; 0.3]%float "379")
       (["The accused stole a laptop"] ++ "  Quit " :: ["Person A hit Person B"])
  = main (fun _ => "70.0") (fun _ => "0.7") (fun _ => "[]")
         (fixture 0 [0.7; 0.3]%float "379")
         (["The accused stole a laptop"] ++ ["  Quit "]).
Proof.
  apply (@nothing_is_read_after_quit
           unit unit (fun _ => "70.0") (fun _ => "0.7") (fun _ => "[]")
           (fixture 0 [0.7; 0.3]%float "379")
           ["The accused stole a laptop"] "  Quit " ["Person A hit Person B"]).
  exists "  ", "Quit", " ". repeat split.
Defined.

Lemma blank_line_is_turned_down_witness :
  main_loop (fun _ => "70.0") (fun _ => "0.7") (fun _ => "[]")
            (fixture 0 [0.7; 0.3]%float "379") ["   "; "quit"]
  = ([prompt; empty_notice; prompt], inr tt).
Proof.
  apply (@blank_line_is_turned_down
           unit unit (fun _ => "70.0") (fun _ => "0.7") (fun _ => "[]")
           (fixture 0 [0.7; 0.3]%float "379") "   " ["quit"]).
  reflexivity.
Defined.

Lemma failed_analysis_is_reported_witness :
  main_loop (fun _ => "70.0") (fun _ => "0.7") (fun _ => "[]")
            fixture_missing_classifier [" Person A hit Person B"; "quit"]
  = ((prompt
      :: failure_report
           "Person A hit Person B"
           "[Errno 2] No such file or directory: 'rf_classifier.pkl'"
      ++ [prompt])%list,
     inr tt).
Proof.
  apply (@failed_analysis_is_reported
           unit unit (fun _ => "70.0") (fun _ => "0.7") (fun _ => "[]")
           fixture_missing_classifier " Person A hit Person B" ["quit"]
           "[Errno 2] No such file or directory: 'rf_classifier.pkl'").
  - intros Hq. apply StripFacts.quit_line_is_quit in Hq. discriminate.
  - discriminate.
  - apply fails_loading. reflexivity.
Defined.

Lemma successful_analysis_is_reported_witness :
  exists peak,
    np_max [0.8; 0.2]%float = Ok peak
    /\ (Forall is_number [0.8; 0.2]%float -> maximum_of [0.8; 0.2]%float peak)
    /\ main_loop (fun _ => "80.0") (fun _ => "80.0") (fun _ => "[]")
                 (fixture 0 [0.8; 0.2]%float "379") ["theft "; "quit"]
       = ((prompt
           :: success_report
                "theft" "379" "80.0" []
                (get_section_explanation "379" "theft")
                (get_recommendations_float (peak * 100)%float)
           ++ [prompt])%list,
          inr tt).
Proof.
  apply (@successful_analysis_is_reported
           unit unit (fun _ => "80.0") (fun _ => "80.0") (fun _ => "[]")
           (fixture 0 [0.8; 0.2]%float "379") "theft " ["quit"]
           0 [0.8; 0.2]%float "379").
  - intros Hq. apply StripFacts.quit_line_is_quit in Hq. discriminate.
  - discriminate.
  - apply classifies_fixture.
  - discriminate.
Defined.

(** The row 0.8, 0.2 is at the boundary: its confidence is the float
    80 and the recommendation is the moderate one. *)
Lemma boundary_row_is_moderate :
  np_max [0.8; 0.2]%float = Ok 0.8%float
  /\ (0.8 * 100)%float = 80%float
  /\ get_recommendations_float (0.8 * 100)%float = moderate_confidence_text.
Proof. repeat split; vm_compute; reflexivity. Qed.

(** ** Which spelling the generic pass keeps *)

Module FirstSpelling.
Local Open Scope list_scope.

(** The loop over a list in two parts is the loop over the second
    part started with the result of the first. *)
Lemma generic_pass_app xs : forall ys parties,
  generic_pass (xs ++ ys) parties = generic_pass ys (generic_pass xs parties).
Proof.
  induction xs as [|x xs IH]; intros ys parties; [reflexivity|].
  cbn [app generic_pass].
  destruct (negb (Str.mem (Str.lower x) standard_keys));
    [destruct (negb (Str.mem (Str.lower x) (map Str.lower parties)))|];
    apply IH.
Qed.

End FirstSpelling.

(** X16. Of the matches that agree up to case the first one is kept
    as it is spelled: a match that does not lowercase to "person a",
    "person b" or "person c" and has no earlier match with the same
    lowercase form is in the output. *)
Theorem first_spelling_is_kept (text : string) (earlier : list string)
        (m : string) (later : list string) :
  Re.findall person_pattern text = (earlier ++ m :: later)%list ->
  ~ In (Str.lower m) standard_keys ->
  ~ In (Str.lower m) (map Str.lower earlier) ->
  In m (extract_parties text).
Proof.
  intros Hfind Hkey Hfirst.
  rewrite ExtractorFacts.extract_parties_eq, Hfind.
  apply in_or_app. left.
  rewrite FirstSpelling.generic_pass_app.
  set (kept := generic_pass earlier []).
  assert (Hfresh : ~ In (Str.lower m) (map Str.lower kept)).
  { intros H. apply in_map_iff in H as (p & Hp & Hin).
    apply ExtractorFacts.generic_pass_In in Hin as [[]|[Hin _]].
    apply Hfirst. rewrite <- Hp. now apply in_map. }
  rewrite ExtractorFacts.generic_pass_fresh by assumption.
  destruct (ExtractorFacts.generic_pass_extends later (kept ++ [m])%list)
    as [added ->].
  apply in_or_app. left. apply in_or_app. right. now left.
Qed.

Lemma first_spelling_is_kept_witness :
  In "The Accused" (extract_parties "The Accused ran, the accused fell").
Proof.
  apply (@first_spelling_is_kept
           "The Accused ran, the accused fell"
           [] "The Accused" ["the accused"]).
  - vm_compute. reflexivity.
  - vm_compute. intuition discriminate.
  - intros [].
Defined.
